(** * DuraGraph examples: the HelloWorld and ChatbotWithMemory graphs

    A shallow embedding of [python/01-hello-world/main.py] and
    [python/02-chatbot/main.py], followed by a model of the graph engine the
    examples are written against.

    Conventions of the embedding.
    - A Python value is a term of [value].  Strings are sequences of ASCII
      characters; floats are left out.
    - A State Record (a Python [dict] with string keys) is a
      [gmap string value].  The nodes mutate the dict they receive and
      return it; here the updated dict is the returned value.  A list held
      in the state is owned by the state (the store hands out copies), so
      [append] on it is an update of the entry.
    - A raised exception is the [Raise] outcome of [result]; nothing is
      returned in that case.  No node writes to the store before a point
      where it can raise, so the store is then as it was.
    - [print] calls write to the console only and are left out.
    - The nodes are [async] methods without an [await] in their bodies;
      a call is modelled as the run of the body. *)

From Stdlib Require Import ZArith String Ascii List DecimalString.
From stdpp Require Import base option gmap strings list relations.

Local Open Scope string_scope.
Local Open Scope Z_scope.
Set Warnings "-register-all".

(** ** Python values *)

Module Py.

Inductive value : Type :=
  | VNone
  | VBool (b : bool)
  | VInt (n : Z)
  | VStr (s : string)
  | VList (l : list value)
  | VDict (d : list (string * value))   (* string keys, insertion order *)
  | VObj (addr : string).               (* a plain [object()] at an address *)

Inductive exn : Type :=
  | KeyError (k : string)
  | IndexError
  | TypeError
  | AttributeError.

Inductive result (A : Type) : Type :=
  | Ok (a : A)
  | Raise (e : exn).
Arguments Ok {A} a.
Arguments Raise {A} e.

#[export] Instance result_bind : MBind result := fun A B k r =>
  match r with
  | Ok a => k a
  | Raise e => Raise e
  end.

(** [bool(v)]: the truth value Python gives to [v]. *)
Definition truthy (v : value) : bool :=
  match v with
  | VNone => false
  | VBool b => b
  | VInt n => negb (n =? 0)
  | VStr s => negb (String.eqb s "")
  | VList l => match l with [] => false | _ => true end
  | VDict d => match d with [] => false | _ => true end
  | VObj _ => true
  end.

(** *** Text of a value: [repr] and [str] *)

Definition hex_digit (n : N) : ascii :=
  ascii_of_N (if (n <? 10)%N then 48 + n else 87 + n)%N.

Definition escape_char (quote c : ascii) : string :=
  let n := N_of_ascii c in
  if Ascii.eqb c "\"%char then "\\"
  else if Ascii.eqb c quote then String "\"%char (String quote "")
  else if (n =? 9)%N then "\t"
  else if (n =? 10)%N then "\n"
  else if (n =? 13)%N then "\r"
  else if ((n <? 32) || (126 <? n))%N
       then String "\"%char (String "x"%char
              (String (hex_digit (n / 16)) (String (hex_digit (n mod 16)) "")))
  else String c "".

Fixpoint escape (quote : ascii) (s : string) : string :=
  match s with
  | EmptyString => ""
  | String c s' => escape_char quote c ++ escape quote s'
  end.

Fixpoint has_char (c : ascii) (s : string) : bool :=
  match s with
  | EmptyString => false
  | String c' s' => Ascii.eqb c c' || has_char c s'
  end.

(** [repr(s)] of a string: single quotes, unless the text has a single
    quote and no double quote. *)
Definition repr_str (s : string) : string :=
  let double := ascii_of_N 34 in
  let quote :=
    if has_char "'"%char s && negb (has_char double s)
    then double else "'"%char in
  String quote (escape quote s ++ String quote "").

Definition str_of_Z (n : Z) : string := NilZero.string_of_int (Z.to_int n).

Fixpoint join (sep : string) (parts : list string) : string :=
  match parts with
  | [] => ""
  | [p] => p
  | p :: ps => p ++ sep ++ join sep ps
  end.

Fixpoint repr (v : value) : string :=
  match v with
  | VNone => "None"
  | VBool b => if b then "True" else "False"
  | VInt n => str_of_Z n
  | VStr s => repr_str s
  | VList l => "[" ++ join ", " (map repr l) ++ "]"
  | VDict d =>
      "{" ++ join ", " (map (fun kv => repr_str (fst kv) ++ ": " ++ repr (snd kv)) d)
          ++ "}"
  | VObj addr => "<object object at " ++ addr ++ ">"
  end.

(** [str(v)], which is also what an f-string field [{v}] expands to. *)
Definition str (v : value) : string :=
  match v with
  | VStr s => s
  | _ => repr v
  end.

(** *** String methods *)

Definition lower_char (c : ascii) : ascii :=
  let n := N_of_ascii c in
  if ((65 <=? n) && (n <=? 90))%N then ascii_of_N (n + 32) else c.

Fixpoint lower_string (s : string) : string :=
  match s with
  | EmptyString => ""
  | String c s' => String (lower_char c) (lower_string s')
  end.

(** [needle in hay] on two strings. *)
Fixpoint contains (needle hay : string) : bool :=
  String.prefix needle hay
  || match hay with
     | EmptyString => false
     | String _ hay' => contains needle hay'
     end.

Fixpoint chars (s : string) : list value :=
  match s with
  | EmptyString => []
  | String c s' => VStr (String c "") :: chars s'
  end.

Fixpoint last_chars (n : nat) (s : string) : string :=
  match s with
  | EmptyString => ""
  | String c s' =>
      if (String.length s' <? n)%nat then s else last_chars n s'
  end.

(** *** Dynamic operations used by the nodes *)

Fixpoint dict_get (k : string) (d : list (string * value)) : option value :=
  match d with
  | [] => None
  | (k', v) :: d' => if String.eqb k k' then Some v else dict_get k d'
  end.

(** [v[k]] for a string key [k]. *)
Definition subscript (v : value) (k : string) : result value :=
  match v with
  | VDict d =>
      match dict_get k d with
      | Some x => Ok x
      | None => Raise (KeyError k)
      end
  | _ => Raise TypeError
  end.

(** [v[-1]]. *)
Definition index_last (v : value) : result value :=
  match v with
  | VList l =>
      match last l with
      | Some x => Ok x
      | None => Raise IndexError
      end
  | VStr s =>
      match last (chars s) with
      | Some x => Ok x
      | None => Raise IndexError
      end
  | VDict _ => Raise (KeyError "-1")
  | _ => Raise TypeError
  end.

(** [v[-n:]] followed by iteration: the items a comprehension
    [for msg in v[-n:]] visits.  A string gives its characters; a dict
    cannot be sliced ([TypeError]; a [KeyError] from Python 3.12 on). *)
Definition last_items (n : nat) (v : value) : result (list value) :=
  match v with
  | VList l => Ok (drop (length l - n) l)
  | VStr s => Ok (chars (last_chars n s))
  | _ => Raise TypeError
  end.

(** [len(v)]. *)
Definition len (v : value) : result Z :=
  match v with
  | VList l => Ok (Z.of_nat (length l))
  | VStr s => Ok (Z.of_nat (String.length s))
  | VDict d => Ok (Z.of_nat (length d))
  | _ => Raise TypeError
  end.

(** [v.lower()]. *)
Definition lower (v : value) : result string :=
  match v with
  | VStr s => Ok (lower_string s)
  | _ => Raise AttributeError
  end.

(** [v.append(x)]: only a list has the method. *)
Definition append (v x : value) : result value :=
  match v with
  | VList l => Ok (VList (l ++ [x]))
  | _ => Raise AttributeError
  end.

Fixpoint mapM {A B : Type} (f : A → result B) (l : list A) : result (list B) :=
  match l with
  | [] => Ok []
  | a :: l' => b ← f a; bs ← mapM f l'; Ok (b :: bs)
  end.

(** *** Serializable values

    What [json.dumps] accepts: everything but a plain object, looked for
    at any depth. *)
Fixpoint serializable (v : value) : bool :=
  match v with
  | VObj _ => false
  | VList l => forallb serializable l
  | VDict d => forallb (fun kv => serializable (snd kv)) d
  | _ => true
  end.

(** *** Hashable values as dictionary keys

    [True] and [1] are the same key, as are [False] and [0]; lists and
    dicts are unhashable. *)
Inductive key : Type :=
  | KNone
  | KInt (n : Z)
  | KStr (s : string)
  | KObj (addr : string).

Definition hash_key (v : value) : result key :=
  match v with
  | VNone => Ok KNone
  | VBool b => Ok (KInt (if b then 1 else 0))
  | VInt n => Ok (KInt n)
  | VStr s => Ok (KStr s)
  | VObj addr => Ok (KObj addr)
  | VList _ | VDict _ => Raise TypeError
  end.

#[export] Instance key_eq_dec : EqDecision key.
Proof. solve_decision. Defined.

Definition key_enc (k : key) : unit + Z + string + string :=
  match k with
  | KNone => inl (inl (inl tt))
  | KInt n => inl (inl (inr n))
  | KStr s => inl (inr s)
  | KObj a => inr a
  end.

Definition key_dec (x : unit + Z + string + string) : key :=
  match x with
  | inl (inl (inl _)) => KNone
  | inl (inl (inr n)) => KInt n
  | inl (inr s) => KStr s
  | inr a => KObj a
  end.

#[export] Instance key_countable : Countable key.
Proof.
  refine (inj_countable' key_enc key_dec _).
  intros []; reflexivity.
Defined.

End Py.

Import Py.

(** ** State Records *)

Abbreviation State := (gmap string value).

(** [state.get(k, dflt)] *)
Definition get (st : State) (k : string) (dflt : value) : value :=
  default dflt (st !! k).

(** [state[k]] *)
Definition getitem (st : State) (k : string) : result value :=
  match st !! k with
  | Some v => Ok v
  | None => Raise (KeyError k)
  end.

Definition state_serializable (st : State) : Prop :=
  map_Forall (fun _ v => serializable v = true) st.

(** ** 01-hello-world: the HelloWorld graph *)

Module HelloWorld.

(** First node: generate the greeting. *)
Definition greet (state : State) : State :=
  let name := get state "name" (VStr "World") in
  <["greeting" := VStr ("Hello, " ++ str name ++ "!")]> state.

(** Second node: add the farewell message. *)
Definition farewell (state : State) : State :=
  <["farewell" := VStr "Goodbye! Thanks for using DuraGraph."]> state.

End HelloWorld.

(** ** 02-chatbot: the conversation store

    [_store] is a [defaultdict(list)]: reading a missing key with
    [_store[k]] inserts [k] with an empty list.  A [Store] is the content
    of [_store]. *)

Abbreviation Store := (gmap key (list value)).

Module ConversationStore.

(** [ConversationStore()] *)
Definition init : Store := ∅.

(** [self._store[thread_id]] on the defaultdict: the list, and the store
    with the key now present. *)
Definition store_getitem (thread_id : key) (store : Store) : list value * Store :=
  match store !! thread_id with
  | Some l => (l, store)
  | None => ([], <[thread_id := []]> store)
  end.

(** The dict [{"role": role, "content": content}]. *)
Definition message (role content : value) : value :=
  VDict [("role", role); ("content", content)].

(** Returns a copy of the thread's list. *)
Definition get_messages (thread_id : key) (store : Store) : list value * Store :=
  store_getitem thread_id store.

Definition add_message (thread_id : key) (role content : value) (store : Store)
  : Store :=
  let '(l, store') := store_getitem thread_id store in
  <[thread_id := (l ++ [message role content])%list]> store'.

Definition clear (thread_id : key) (store : Store) : Store :=
  if decide (is_Some (store !! thread_id)) then delete thread_id store else store.

End ConversationStore.

Definition store_serializable (store : Store) : Prop :=
  map_Forall (fun _ l => forallb serializable l = true) store.

(** ** 02-chatbot: the ChatbotWithMemory graph

    The nodes read and write the global [conversation_store]; its content
    is passed in and returned next to the state. *)

Module ChatbotWithMemory.

Import ConversationStore.

(** Load conversation history from the store. *)
Definition load_history (state : State) (store : Store) : result (State * Store) :=
  let thread_id := get state "thread_id" (VStr "default") in
  k ← hash_key thread_id;
  let '(messages, store') := get_messages k store in
  Ok (<["messages" := VList messages]> state, store').

(** Add the user's new message to the conversation. *)
Definition add_user_message (state : State) (store : Store)
  : result (State * Store) :=
  let user_input := get state "input" (VStr "") in
  let thread_id := get state "thread_id" (VStr "default") in
  if negb (truthy user_input) then Ok (state, store)
  else
    messages ← getitem state "messages";
    messages' ← append messages (message (VStr "user") user_input);
    Ok (<["messages" := messages']> state, store).

(** One line of the context: [f"{msg['role']}: {msg['content']}"]. *)
Definition context_line (msg : value) : result string :=
  role ← subscript msg "role";
  content ← subscript msg "content";
  Ok (str role ++ ": " ++ str content).

(** The rule-based reply; the echo branch reads [messages] again. *)
Definition choose_response (messages : value) (user_message : string)
  : result string :=
  if contains "hello" user_message || contains "hi" user_message then
    Ok "Hello! How can I help you today?"
  else if contains "how are you" user_message then
    Ok "I'm doing great, thank you for asking! How can I assist you?"
  else if contains "bye" user_message || contains "goodbye" user_message then
    Ok "Goodbye! Feel free to come back anytime."
  else if contains "name" user_message then
    Ok "I'm DuraGraph Bot, your helpful assistant!"
  else
    msg_count ← len messages;
    last_msg ← index_last messages;
    content ← subscript last_msg "content";
    Ok ("I understand you said: '" ++ str content ++ "'. "
        ++ "This is message #" ++ str_of_Z msg_count
        ++ " in our conversation. How can I help further?").

(** Generate the reply from the conversation history. *)
Definition generate_response (state : State) (store : Store)
  : result (State * Store) :=
  let messages := get state "messages" (VList []) in
  recent ← last_items 5 messages;
  lines ← mapM context_line recent;
  let context := join (String (ascii_of_N 10) "") lines in
  user_message ←
    (if truthy messages then
       last_msg ← index_last messages;
       content ← subscript last_msg "content";
       lower content
     else Ok "");
  response ← choose_response messages user_message;
  Ok (<["response" := VStr response]> state, store).

(** Save the assistant's reply to the conversation history. *)
Definition save_response (state : State) (store : Store)
  : result (State * Store) :=
  let thread_id := get state "thread_id" (VStr "default") in
  let response := get state "response" (VStr "") in
  if negb (truthy response) then Ok (state, store)
  else
    messages ← getitem state "messages";
    messages' ← append messages (message (VStr "assistant") response);
    let state' := <["messages" := messages']> state in
    k ← hash_key thread_id;
    let store1 := add_message k (VStr "user") (get state' "input" (VStr "")) store in
    let store2 := add_message k (VStr "assistant") response store1 in
    Ok (state', store2).

End ChatbotWithMemory.

(** ** The example nodes, under one type *)

Definition NodeFn := State → Store → result (State * Store).

(** A HelloWorld node does not use the store. *)
Definition lift (f : State → State) : NodeFn :=
  fun state store => Ok (f state, store).

Definition example_nodes : list (string * NodeFn) :=
  [ ("greet", lift HelloWorld.greet);
    ("farewell", lift HelloWorld.farewell);
    ("load_history", ChatbotWithMemory.load_history);
    ("add_user_message", ChatbotWithMemory.add_user_message);
    ("generate_response", ChatbotWithMemory.generate_response);
    ("save_response", ChatbotWithMemory.save_response) ].

Definition is_example_node (f : NodeFn) : Prop :=
  ∃ name, (name, f) ∈ example_nodes.


(** ** Notions used to state the properties *)

Import HelloWorld ConversationStore ChatbotWithMemory.

(** The thread's list as the store holds it; a missing thread has none. *)
Definition history (t : key) (store : Store) : list value :=
  default [] (store !! t).

(** A run of [add_message] calls on one thread. *)
Definition add_all (t : key) (msgs : list (value * value)) (store : Store) : Store :=
  foldl (fun s m => add_message t m.1 m.2 s) store msgs.

(** A node that returns gives back the state it got, or that state with
    one entry written; when the state and the store's messages were
    serializable, the written value and the store's messages are too. *)
Definition node_effect (f : NodeFn) : Prop :=
  ∀ st sto st' sto',
    f st sto = Ok (st', sto') →
    (st' = st
     ∨ ∃ k v, st' = <[k := v]> st
         ∧ (state_serializable st → store_serializable sto →
            serializable v = true))
    ∧ (state_serializable st → store_serializable sto →
       store_serializable sto').

(** A message dict with a string under 'content'. *)
Definition has_text_content (msg : value) : bool :=
  match msg with
  | VDict d =>
      match dict_get "content" d with
      | Some (VStr _) => true
      | _ => false
      end
  | _ => false
  end.

(** A message dict with a 'role' entry and a string under 'content'. *)
Definition has_role_and_text (msg : value) : bool :=
  match msg with
  | VDict d =>
      match dict_get "role" d with
      | Some _ => has_text_content msg
      | None => false
      end
  | _ => false
  end.

(** The stores a program can get to: the store is created empty, and is
    read and written through its three methods only, with strings for
    [role] and [content] as the methods declare them, or by a run of an
    example node on a serializable state. *)
Inductive reachable_store : Store → Prop :=
  | reach_init :
      reachable_store init
  | reach_get (t : key) (store : Store) :
      reachable_store store →
      reachable_store (get_messages t store).2
  | reach_add (t : key) (role content : string) (store : Store) :
      reachable_store store →
      reachable_store (add_message t (VStr role) (VStr content) store)
  | reach_clear (t : key) (store : Store) :
      reachable_store store →
      reachable_store (clear t store)
  | reach_node (f : NodeFn) (st st' : State) (store store' : Store) :
      reachable_store store →
      is_example_node f →
      state_serializable st →
      f st store = Ok (st', store') →
      reachable_store store'.
(** * The graph engine

    The examples are written against the [duragraph] package ([Graph],
    [node], [Worker]), which is not among the example sources.  The part
    of it the properties below are about, graph construction and the
    execution of a run against the Run Ledger, is modelled here from the
    specification. *)

Module Engine.

(** ** Plans and their cycles *)

(** Modelled from the spec: the execution plan of a Graph, "either a
    strict linear order or a dependency DAG".  A dependency [(a, b)] says
    that [a] runs before [b]. *)
Inductive Plan : Type :=
  | Linear (order : list string)
  | Dag (deps : list (string * string)).

Definition Edges := list (string * string).

Fixpoint consecutive (order : list string) : Edges :=
  match order with
  | a :: (b :: _) as rest => (a, b) :: consecutive rest
  | _ => []
  end.

(** Modelled from the spec: the "plan graph" whose cycles [build]
    rejects; in a linear order each node points to the next one. *)
Definition plan_edges (plan : Plan) : Edges :=
  match plan with
  | Linear order => consecutive order
  | Dag deps => deps
  end.

(** Modelled from the spec: the node names a plan refers to. *)
Definition plan_refs (plan : Plan) : list string :=
  match plan with
  | Linear order => order
  | Dag deps => (map fst deps ++ map snd deps)%list
  end.

Definition edge (es : Edges) (a b : string) : Prop := (a, b) ∈ es.

(** Modelled from the spec: "a cyclic plan" is a plan graph in which some
    node reaches itself along one or more edges. *)
Definition has_cycle (es : Edges) : Prop := ∃ v, tc (edge es) v v.

(** [walk_to es l w]: [l] is not empty, each element of [l] has an edge
    to the next one, and the last has an edge to [w]. *)
Fixpoint walk_to (es : Edges) (l : list string) (w : string) : Prop :=
  match l with
  | [] => False
  | [x] => edge es x w
  | x :: (y :: _) as l' => edge es x y ∧ walk_to es l' w
  end.

(** A named cycle: the nodes of a closed walk, in order. *)
Definition is_cycle (es : Edges) (c : list string) : Prop :=
  match head c with
  | Some v => walk_to es c v
  | None => False
  end.

Definition successors (es : Edges) (v : string) : list string :=
  map snd (filter (fun e => e.1 = v) es).

Definition vertices (es : Edges) : list string :=
  (map fst es ++ map snd es)%list.

Fixpoint first_some {A B : Type} (f : A → option B) (l : list A) : option B :=
  match l with
  | [] => None
  | a :: l' =>
      match f a with
      | Some b => Some b
      | None => first_some f l'
      end
  end.

(** The part of the search path from its top down to [v]. *)
Fixpoint take_until (v : string) (path : list string) : list string :=
  match path with
  | [] => []
  | u :: path' => if decide (u = v) then [u] else u :: take_until v path'
  end.

(** Depth-first search along the edges; [path] is the way from the start
    to [v], last visited first.  Coming back to a node of the path closes
    a cycle. *)
Fixpoint dfs (es : Edges) (fuel : nat) (path : list string) (v : string)
  : option (list string) :=
  match fuel with
  | O => None
  | S fuel' =>
      if decide (v ∈ path) then Some (reverse (take_until v path))
      else first_some (dfs es fuel' (v :: path)) (successors es v)
  end.

(** Modelled from the spec: the search for "the offending cycle" that
    [CycleError] names. *)
Definition find_cycle (es : Edges) : option (list string) :=
  first_some (dfs es (S (length (vertices es))) []) (vertices es).

(** [v] leads to a cycle. *)
Definition live (es : Edges) (v : string) : Prop :=
  ∃ u, rtc (edge es) v u ∧ tc (edge es) u u.

(** The search path is a walk: each node has an edge to the one visited
    after it, and the top has an edge to [v]. *)
Fixpoint path_to (es : Edges) (path : list string) (v : string) : Prop :=
  match path with
  | [] => True
  | u :: path' => edge es u v ∧ path_to es path' u
  end.

(** ** Graphs *)

Section Graphs.

(** The external stores a node may read and write. *)
Context {W : Type}.

(** Modelled from the spec: a Node, "unique name within its Graph" and
    "a function-like unit [apply(state) -> state]" that may fail and may
    have effects on external stores. *)
Record Node : Type := {
  node_name : string;
  apply : State → W → result (State * W)
}.

(** Modelled from the spec: a Graph, "a named, immutable collection of
    Nodes plus an execution plan". *)
Record Graph : Type := {
  graph_name : string;
  graph_nodes : list Node;
  graph_plan : Plan
}.

(** Modelled from the spec: the error taxonomy of graph construction;
    [CycleError] is a kind of [ValidationError] and names the cycle. *)
Inductive ValidationError : Type :=
  | UnknownNode (name : string)
  | DuplicateNode (name : string)
  | EmptyGraph
  | CycleError (cycle : list string).

Fixpoint first_duplicate (names : list string) : option string :=
  match names with
  | [] => None
  | n :: names' =>
      if decide (n ∈ names') then Some n else first_duplicate names'
  end.

(** Modelled from the spec: [build(name, nodes, plan) -> Graph |
    ValidationError], which validates that the plan graph is acyclic, that
    all plan references resolve to declared Nodes, that no Node name is
    declared twice and that at least one Node exists.  The specification
    gives no order for the four checks; its testable property "for all
    Graphs with a cyclic plan, build fails with CycleError" holds of every
    cyclic plan, so the cycle check is the first. *)
Definition build (name : string) (nodes : list Node) (plan : Plan)
  : Graph + ValidationError :=
  let names := map node_name nodes in
  match find_cycle (plan_edges plan) with
  | Some cycle => inr (CycleError cycle)
  | None =>
      match filter (fun r => r ∉ names) (plan_refs plan) with
      | r :: _ => inr (UnknownNode r)
      | [] =>
          match first_duplicate names with
          | Some d => inr (DuplicateNode d)
          | None =>
              match nodes with
              | [] => inr EmptyGraph
              | _ => inl {| graph_name := name;
                            graph_nodes := nodes;
                            graph_plan := plan |}
              end
          end
      end
  end.

Definition find_node (g : Graph) (name : string) : option Node :=
  find (fun nd => bool_decide (node_name nd = name)) (graph_nodes g).

(** ** Runs and the Run Ledger *)

(** Modelled from the spec: the status of a Run. *)
Inductive Status : Type := Pending | Running | Completed | Failed | Cancelled.

(** Modelled from the spec: a Run, "one execution instance of a Graph". *)
Record Run : Type := {
  run_id : string;
  run_graph_name : string;
  thread_id : option string;
  initial_state : State;
  position : nat;
  snapshot : State;
  status : Status
}.

(** Modelled from the spec: the outcome of a ledger entry; a failure
    carries the error detail. *)
Inductive Outcome : Type :=
  | Success
  | Failure (detail : exn).

(** Modelled from the spec: a Run Ledger Entry, the record
    [(run_id, node_name, sequence_index, resulting_state_snapshot,
    timestamp, outcome)].  The [sequence_index] of a Node is its position
    in the plan, from 0; the timestamp is the reading of a logical clock.
    A failure entry keeps the state the Node was given. *)
Record LedgerEntry : Type := {
  entry_run_id : string;
  entry_node_name : string;
  sequence_index : nat;
  resulting_state_snapshot : State;
  timestamp : nat;
  outcome : Outcome
}.

Definition is_success_of (rid : string) (e : LedgerEntry) : bool :=
  bool_decide (entry_run_id e = rid)
  && match outcome e with Success => true | Failure _ => false end.

(** Modelled from the spec: [latest_success(run_id) -> entry | None],
    the entry with "the highest [sequence_index] with outcome [success]
    for [run_id]". *)
Definition latest_success (rid : string) (ledger : list LedgerEntry)
  : option LedgerEntry :=
  foldl (fun best e =>
           if is_success_of rid e then
             match best with
             | Some b =>
                 if (sequence_index b <? sequence_index e)%nat then Some e else best
             | None => Some e
             end
           else best)
        None ledger.

(** What the engine works on besides the run: the ledger store (taken to
    be available: [append] always succeeds), the external stores, the
    logical clock, and the names of the Nodes invoked so far. *)
Record Env : Type := {
  ledger : list LedgerEntry;
  world : W;
  clock : nat;
  invoked : list string
}.

(** Modelled from the spec: [append(run_id, entry)], "the single commit
    point". *)
Definition append_entry (rid name : string) (idx : nat) (st : State)
    (o : Outcome) (env : Env) : list LedgerEntry :=
  (ledger env
   ++ [{| entry_run_id := rid; entry_node_name := name; sequence_index := idx;
          resulting_state_snapshot := st; timestamp := clock env;
          outcome := o |}])%list.

(** Modelled from the spec: the result of [execute], [FinalState |
    ExecutionFailure]; a failure gives "the identity and index of the
    failing Node". *)
Inductive ExecResult : Type :=
  | FinalState (st : State)
  | ExecutionFailure (node : string) (index : nat) (detail : exn).

(** Modelled from the spec: the loop of [execute] over the remaining
    Nodes of a linear plan: "invoke the Node with the current State
    Record; on success, append a Run Ledger Entry with outcome success and
    the returned State Record, then advance; on failure, append an entry
    with outcome failure and the error detail, and stop".  A name with no
    registered Node stops the run as a failed lookup. *)
Fixpoint run_plan (g : Graph) (rid : string) (idx : nat)
    (remaining : list string) (st : State) (env : Env) : ExecResult * Env :=
  match remaining with
  | [] => (FinalState st, env)
  | name :: rest =>
      match find_node g name with
      | None => (ExecutionFailure name idx (KeyError name), env)
      | Some nd =>
          match apply nd st (world env) with
          | Ok (st', w') =>
              run_plan g rid (S idx) rest st'
                {| ledger := append_entry rid name idx st' Success env;
                   world := w';
                   clock := S (clock env);
                   invoked := (invoked env ++ [name])%list |}
          | Raise e =>
              (ExecutionFailure name idx e,
               {| ledger := append_entry rid name idx st (Failure e) env;
                  world := world env;
                  clock := S (clock env);
                  invoked := (invoked env ++ [name])%list |})
          end
      end
  end.

(** Modelled from the spec: where [execute] starts: "if none, start at
    the plan's first Node with the run's initial State Record; otherwise
    resume with the snapshot from that ledger entry", at the Node after
    the entry's. *)
Definition resume_point (r : Run) (env : Env) : nat * State :=
  match latest_success (run_id r) (ledger env) with
  | None => (O, initial_state r)
  | Some e => (S (sequence_index e), resulting_state_snapshot e)
  end.

(** Modelled from the spec: the Run when [execute] ends, "completed"
    with the final State Record when the plan is exhausted and "failed" at
    the failing Node otherwise, its snapshot then being the last one the
    ledger holds for the run. *)
Definition finish (r : Run) (plan_length : nat) (res : ExecResult) (env : Env)
  : Run :=
  {| run_id := run_id r;
     run_graph_name := run_graph_name r;
     thread_id := thread_id r;
     initial_state := initial_state r;
     position := match res with
                 | FinalState _ => plan_length
                 | ExecutionFailure _ i _ => i
                 end;
     snapshot := match res with
                 | FinalState st => st
                 | ExecutionFailure _ _ _ => (resume_point r env).2
                 end;
     status := match res with
               | FinalState _ => Completed
               | ExecutionFailure _ _ _ => Failed
               end |}.

(** Modelled from the spec: [execute(graph, run) -> FinalState |
    ExecutionFailure] for a linear plan.  The Nodes of a DAG plan are
    scheduled concurrently, which this sequential model does not cover:
    the result is [None] there. *)
Definition execute (g : Graph) (r : Run) (env : Env)
  : option (ExecResult * Run * Env) :=
  match graph_plan g with
  | Linear order =>
      let '(idx, st) := resume_point r env in
      let '(res, env') := run_plan g (run_id r) idx (drop idx order) st env in
      Some (res, finish r (length order) res env', env')
  | Dag _ => None
  end.

End Graphs.

Arguments Node W : clear implicits.
Arguments Graph W : clear implicits.
Arguments Env W : clear implicits.

End Engine.

(** ** The two example graphs

    [@Graph] on a class with [@node] methods declares the Nodes in the
    order of the methods, run one after the other. *)

Definition hello_world_nodes : list (Engine.Node Store) :=
  [ {| Engine.node_name := "greet"; Engine.apply := lift HelloWorld.greet |};
    {| Engine.node_name := "farewell"; Engine.apply := lift HelloWorld.farewell |} ].

Definition hello_world_plan : Engine.Plan := Engine.Linear ["greet"; "farewell"].

Definition hello_world_graph : Engine.Graph Store :=
  {| Engine.graph_name := "HelloWorld";
     Engine.graph_nodes := hello_world_nodes;
     Engine.graph_plan := hello_world_plan |}.

Definition chatbot_nodes : list (Engine.Node Store) :=
  [ {| Engine.node_name := "load_history";
       Engine.apply := ChatbotWithMemory.load_history |};
    {| Engine.node_name := "add_user_message";
       Engine.apply := ChatbotWithMemory.add_user_message |};
    {| Engine.node_name := "generate_response";
       Engine.apply := ChatbotWithMemory.generate_response |};
    {| Engine.node_name := "save_response";
       Engine.apply := ChatbotWithMemory.save_response |} ].

Definition chatbot_plan : Engine.Plan :=
  Engine.Linear
    ["load_history"; "add_user_message"; "generate_response"; "save_response"].

Definition chatbot_graph : Engine.Graph Store :=
  {| Engine.graph_name := "ChatbotWithMemory";
     Engine.graph_nodes := chatbot_nodes;
     Engine.graph_plan := chatbot_plan |}.

(** A run of HelloWorld on the empty state, an engine that has done
    nothing yet, and the engine as a restart finds it when the run stopped
    after [greet] was committed. *)
Definition hello_run : Engine.Run :=
  {| Engine.run_id := "run-1";
     Engine.run_graph_name := "HelloWorld";
     Engine.thread_id := None;
     Engine.initial_state := ∅;
     Engine.position := 0;
     Engine.snapshot := ∅;
     Engine.status := Engine.Pending |}.

Definition fresh_env : Engine.Env Store :=
  {| Engine.ledger := [];
     Engine.world := ConversationStore.init;
     Engine.clock := 0;
     Engine.invoked := [] |}.








(** * Further notions for the examples *)

(** ** The store under a sequence of calls *)

(** A call of one of the three methods of [ConversationStore]. *)
Inductive store_op : Type :=
  | OpAdd (thread_id : key) (role content : value)
  | OpClear (thread_id : key)
  | OpGet (thread_id : key).

Definition run_op (op : store_op) (store : Store) : Store :=
  match op with
  | OpAdd t role content => add_message t role content store
  | OpClear t => clear t store
  | OpGet t => (get_messages t store).2
  end.

Definition run_ops (ops : list store_op) (store : Store) : Store :=
  foldl (fun s op => run_op op s) store ops.

(** What a reader of thread [t] expects after a call: the dict
    [{"role": role, "content": content}] of a message added to [t] at the
    end, nothing after a clear of [t], no change otherwise. *)
Definition log_step (t : key) (h : list value) (op : store_op) : list value :=
  match op with
  | OpAdd t' role content =>
      if decide (t' = t)
      then (h ++ [VDict [("role", role); ("content", content)]])%list
      else h
  | OpClear t' => if decide (t' = t) then [] else h
  | OpGet _ => h
  end.

Definition expected_history (t : key) (ops : list store_op) : list value :=
  foldl (log_step t) [] ops.

(** ** Messages and replies *)

(** A message dict with a 'role' and a 'content' entry. *)
Definition has_role_and_content (msg : value) : bool :=
  match msg with
  | VDict d =>
      match dict_get "role" d, dict_get "content" d with
      | Some _, Some _ => true
      | _, _ => false
      end
  | _ => false
  end.

(** The reply of [generate_response] as a function of the text of the
    last message and of the number of messages. *)
Definition reply (text : string) (count : Z) : string :=
  let user_message := lower_string text in
  if contains "hello" user_message || contains "hi" user_message then
    "Hello! How can I help you today?"
  else if contains "how are you" user_message then
    "I'm doing great, thank you for asking! How can I assist you?"
  else if contains "bye" user_message || contains "goodbye" user_message then
    "Goodbye! Feel free to come back anytime."
  else if contains "name" user_message then
    "I'm DuraGraph Bot, your helpful assistant!"
  else
    "I understand you said: '" ++ text ++ "'. "
    ++ "This is message #" ++ str_of_Z count
    ++ " in our conversation. How can I help further?".

(** The state key each example node assigns or appends to. *)
Definition written_key (node : string) : string :=
  if String.eqb node "greet" then "greeting"
  else if String.eqb node "farewell" then "farewell"
  else if String.eqb node "generate_response" then "response"
  else "messages".

(** ** One turn of the chatbot

    The four nodes in the order of the graph, each on the state the one
    before returned, as the integration test calls them. *)
Definition conversation_turn (state : State) (store : Store)
  : result (State * Store) :=
  s1 ← load_history state store;
  s2 ← add_user_message s1.1 s1.2;
  s3 ← generate_response s2.1 s2.2;
  save_response s3.1 s3.2.

(** The state the integration test starts a turn from. *)
Definition turn_state (thread_id input : string) : State :=
  {[ "thread_id" := VStr thread_id; "input" := VStr input;
     "messages" := VList [] ]}.


(** The two messages a turn leaves in the store. *)
Definition exchange (input response : string) : list value :=
  [VDict [("role", VStr "user"); ("content", VStr input)];
   VDict [("role", VStr "assistant"); ("content", VStr response)]].
(** * Properties of the examples *)


(** ** Shared facts *)

Lemma bind_Ok {A B : Type} (r : result A) (k : A → result B) (b : B) :
  r ≫= k = Ok b → ∃ a, r = Ok a ∧ k a = Ok b.
Proof. destruct r as [a|e]; simpl; [eauto | discriminate]. Qed.

Lemma bind_of_Ok {A B : Type} (a : A) (k : A → result B) : Ok a ≫= k = k a.
Proof. reflexivity. Qed.

Lemma truthy_VStr (s : string) : truthy (VStr s) = true ↔ s ≠ "".
Proof.
  simpl. destruct (String.eqb_spec s ""); simpl; split; congruence.
Qed.

Lemma get_lookup (st : State) (k : string) (d v : value) :
  st !! k = Some v → get st k d = v.
Proof. unfold get. by intros ->. Qed.

Lemma get_absent (st : State) (k : string) (d : value) :
  st !! k = None → get st k d = d.
Proof. unfold get. by intros ->. Qed.

Lemma get_insert_ne (st : State) (k k' : string) (d v : value) :
  k ≠ k' → get (<[k := v]> st) k' d = get st k' d.
Proof. intros. unfold get. by rewrite lookup_insert_ne. Qed.


Lemma store_getitem_fst t store : (store_getitem t store).1 = history t store.
Proof. unfold store_getitem, history. by destruct (store !! t). Qed.

Lemma history_store_getitem t t' store :
  history t' (store_getitem t store).2 = history t' store.
Proof.
  unfold store_getitem, history. destruct (store !! t) eqn:E; simpl; [done|].
  destruct (decide (t = t')) as [<-|Hne].
  - by rewrite lookup_insert_eq, E.
  - by rewrite lookup_insert_ne.
Qed.

Lemma add_message_insert t role content store :
  add_message t role content store
  = <[t := (history t store ++ [message role content])%list]> store.
Proof.
  unfold add_message, store_getitem, history.
  destruct (store !! t); simpl; [done|]. by rewrite insert_insert_eq.
Qed.

Lemma history_add_message_eq t role content store :
  history t (add_message t role content store)
  = (history t store ++ [message role content])%list.
Proof. rewrite add_message_insert. unfold history at 1. by rewrite lookup_insert_eq. Qed.

Lemma history_add_message_ne t t' role content store :
  t ≠ t' → history t' (add_message t role content store) = history t' store.
Proof.
  intros. rewrite add_message_insert. unfold history. by rewrite lookup_insert_ne.
Qed.

Lemma history_clear_eq t store : history t (clear t store) = [].
Proof.
  unfold clear, history. case_decide as H.
  - by rewrite lookup_delete_eq.
  - destruct (store !! t) eqn:E; [|done]. destruct H; eauto.
Qed.

Lemma history_clear_ne t t' store :
  t ≠ t' → history t' (clear t store) = history t' store.
Proof.
  intros. unfold clear, history. case_decide; [|done]. by rewrite lookup_delete_ne.
Qed.

Lemma history_init t : history t init = [].
Proof. done. Qed.


Lemma history_add_all t msgs store :
  history t (add_all t msgs store)
  = (history t store ++ map (fun m => message m.1 m.2) msgs)%list.
Proof.
  revert store. induction msgs as [|m msgs IH]; intros store; simpl.
  - by rewrite app_nil_r.
  - unfold add_all in *. simpl. rewrite IH, history_add_message_eq.
    by rewrite <- app_assoc.
Qed.

(** C1: running greet and then farewell on the empty state gives a state
    with 'greeting' equal to "Hello, World!" and with 'farewell'. *)
Theorem hello_world_final_state :
  let final := farewell (greet ∅) in
  final !! "greeting" = Some (VStr "Hello, World!")
  ∧ final !! "farewell" = Some (VStr "Goodbye! Thanks for using DuraGraph.").
Proof.
  unfold farewell, greet. rewrite (get_absent ∅ "name") by apply lookup_empty.
  split.
  - rewrite lookup_insert_ne by done. by rewrite lookup_insert_eq.
  - by rewrite lookup_insert_eq.
Qed.

(** C4: the store keeps, per thread, the messages in the order of the
    calls: a new store has none, [add_message] calls on a new store give
    exactly their messages, each as the dict
    [{"role": role, "content": content}], in order, and [clear] leaves
    none. *)
Theorem conversation_store_ordered :
  (∀ t, (get_messages t init).1 = [])
  ∧ (∀ t msgs,
       (get_messages t (add_all t msgs init)).1
       = map (fun m => VDict [("role", m.1); ("content", m.2)]) msgs)
  ∧ (∀ t store, (get_messages t (clear t store)).1 = []).
Proof.
  unfold get_messages. split_and!; intros.
  - by rewrite store_getitem_fst.
  - by rewrite store_getitem_fst, history_add_all.
  - by rewrite store_getitem_fst, history_clear_eq.
Qed.

(** C5: [add_message] and [clear] on one thread leave what
    [get_messages] returns for another thread unchanged. *)
Theorem conversation_store_isolated (t1 t2 : key) (role content : value)
    (store : Store) :
  t1 ≠ t2 →
  (get_messages t2 (add_message t1 role content store)).1
  = (get_messages t2 store).1
  ∧ (get_messages t2 (clear t1 store)).1 = (get_messages t2 store).1.
Proof.
  intros Hne. unfold get_messages. rewrite !store_getitem_fst.
  by rewrite history_add_message_ne, history_clear_ne.
Qed.

Lemma conversation_store_isolated_witness :
  let store := add_message (KStr "b") (VStr "user") (VStr "Hello") init in
  (get_messages (KStr "b") (add_message (KStr "a") (VStr "user") (VStr "Hi") store)).1
  = (get_messages (KStr "b") store).1
  ∧ (get_messages (KStr "b") (clear (KStr "a") store)).1
    = (get_messages (KStr "b") store).1.
Proof.
  apply (conversation_store_isolated (KStr "a") (KStr "b")). discriminate.
Defined.

(** ** What a node does to the state and to the store *)

Lemma append_Ok (v x v' : value) :
  append v x = Ok v' → ∃ l, v = VList l ∧ v' = VList (l ++ [x]).
Proof. destruct v; simpl; intros; simplify_eq; eauto. Qed.

Lemma getitem_Ok (st : State) (k : string) (v : value) :
  getitem st k = Ok v → st !! k = Some v.
Proof. unfold getitem. destruct (st !! k); intros; by simplify_eq. Qed.

Lemma get_serializable (st : State) (k : string) (d : value) :
  state_serializable st → serializable d = true →
  serializable (get st k d) = true.
Proof.
  intros Hst Hd. unfold get. destruct (st !! k) eqn:E; simpl; [|done].
  by apply (Hst k).
Qed.

Lemma message_serializable (role content : value) :
  serializable role = true → serializable content = true →
  serializable (message role content) = true.
Proof. intros Hr Hc. simpl. by rewrite Hr, Hc. Qed.

Lemma serializable_snoc (l : list value) (x : value) :
  serializable (VList l) = true → serializable x = true →
  serializable (VList (l ++ [x])) = true.
Proof. simpl. intros Hl Hx. rewrite forallb_app, Hl. simpl. by rewrite Hx. Qed.

Lemma history_serializable (t : key) (store : Store) :
  store_serializable store → forallb serializable (history t store) = true.
Proof.
  intros Hs. unfold history. destruct (store !! t) eqn:E; simpl; [|done].
  by apply (Hs t).
Qed.

Lemma store_getitem_serializable (t : key) (store : Store) :
  store_serializable store → store_serializable (store_getitem t store).2.
Proof.
  intros Hs. unfold store_getitem. destruct (store !! t); simpl; [done|].
  by apply map_Forall_insert_2.
Qed.

Lemma add_message_serializable (t : key) (role content : value) (store : Store) :
  store_serializable store →
  serializable role = true → serializable content = true →
  store_serializable (add_message t role content store).
Proof.
  intros Hs Hr Hc. rewrite add_message_insert. apply map_Forall_insert_2; [|done].
  rewrite forallb_app, history_serializable by done. simpl.
  by rewrite Hr, Hc.
Qed.


Lemma lift_insert_effect (f : State → State) :
  (∀ st, ∃ k s, f st = <[k := VStr s]> st) → node_effect (lift f).
Proof.
  intros Hf st sto st' sto' H. unfold lift in H. simplify_eq.
  destruct (Hf st) as (k & s & ->). split; [|done]. right. by exists k, (VStr s).
Qed.

Lemma load_history_effect : node_effect load_history.
Proof.
  intros st sto st' sto' H. unfold load_history in H.
  apply bind_Ok in H as (k & _ & H). unfold get_messages in H.
  destruct (store_getitem k sto) as [ms sto1] eqn:E. simplify_eq.
  assert (ms = history k sto) as ->
    by (by rewrite <- store_getitem_fst, E).
  assert (sto' = (store_getitem k sto).2) as -> by (by rewrite E).
  split.
  - right. eexists _, _. split; [done|]. intros _ Hs. simpl.
    by apply history_serializable.
  - intros _ Hs. by apply store_getitem_serializable.
Qed.

Lemma add_user_message_effect : node_effect add_user_message.
Proof.
  intros st sto st' sto' H. unfold add_user_message in H.
  destruct (truthy (get st "input" (VStr ""))); simpl in H.
  - apply bind_Ok in H as (ms & Hms & H). apply bind_Ok in H as (ms' & Hms' & H).
    simplify_eq. apply getitem_Ok in Hms. apply append_Ok in Hms' as (l & -> & ->).
    split; [|done]. right. eexists _, _. split; [done|]. intros Hst _.
    apply serializable_snoc; [by apply (Hst "messages")|].
    apply message_serializable; [done|]. by apply get_serializable.
  - simplify_eq. split; [by left | done].
Qed.

Lemma generate_response_effect : node_effect generate_response.
Proof.
  intros st sto st' sto' H. unfold generate_response in H.
  repeat (apply bind_Ok in H as (? & _ & H)). simplify_eq.
  split; [|done]. right. by eexists _, _.
Qed.

Lemma save_response_effect : node_effect save_response.
Proof.
  intros st sto st' sto' H. unfold save_response in H.
  destruct (truthy (get st "response" (VStr ""))); simpl in H.
  - apply bind_Ok in H as (ms & Hms & H). apply bind_Ok in H as (ms' & Hms' & H).
    apply bind_Ok in H as (k & _ & H). simplify_eq.
    apply getitem_Ok in Hms. apply append_Ok in Hms' as (l & -> & ->).
    assert (state_serializable st →
            serializable (VList (l ++ [message (VStr "assistant")
                                         (get st "response" (VStr ""))])) = true)
      as Hnew.
    { intros Hst. apply serializable_snoc; [by apply (Hst "messages")|].
      apply message_serializable; [done|]. by apply get_serializable. }
    split.
    + right. eexists _, _. split; [done|]. auto.
    + intros Hst Hs. apply add_message_serializable; [|done|by apply get_serializable].
      apply add_message_serializable; [done|done|].
      rewrite get_insert_ne by done. by apply get_serializable.
  - simplify_eq. split; [by left | done].
Qed.

Lemma example_node_effect (f : NodeFn) : is_example_node f → node_effect f.
Proof.
  intros [name Hin]. unfold example_nodes in Hin.
  repeat (apply elem_of_cons in Hin as [Heq|Hin]; [simplify_eq|]).
  - apply lift_insert_effect. intros st. by eexists _, _.
  - apply lift_insert_effect. intros st. by eexists _, _.
  - apply load_history_effect.
  - apply add_user_message_effect.
  - apply generate_response_effect.
  - apply save_response_effect.
  - by apply elem_of_nil in Hin.
Qed.

(** C2: a node that returns normally keeps every key of its input
    state. *)
Theorem example_nodes_keep_keys (f : NodeFn) (st st' : State) (sto sto' : Store) :
  is_example_node f →
  f st sto = Ok (st', sto') →
  ∀ k, is_Some (st !! k) → is_Some (st' !! k).
Proof.
  intros Hf Hrun k Hk.
  destruct (example_node_effect f Hf _ _ _ _ Hrun) as [[->|(k' & v & -> & _)] _].
  - done.
  - destruct (decide (k' = k)) as [->|Hne].
    + rewrite lookup_insert_eq. eauto.
    + by rewrite lookup_insert_ne.
Qed.

Lemma example_nodes_keep_keys_witness :
  is_Some ((<["messages" := VList []]>
              ({[ "thread_id" := VStr "t"; "input" := VStr "" ]} : State))
           !! "input").
Proof.
  apply (example_nodes_keep_keys load_history
           {[ "thread_id" := VStr "t"; "input" := VStr "" ]} _
           init (<[KStr "t" := []]> init)).
  - exists "load_history". unfold example_nodes. set_solver.
  - reflexivity.
  - exists (VStr ""). reflexivity.
Defined.

(** ** Serializable states *)

(** One step of the invariant: a node that returns keeps the state and
    the messages of the store serializable. *)
Lemma example_nodes_keep_serializable (f : NodeFn) (st st' : State)
    (sto sto' : Store) :
  is_example_node f →
  state_serializable st →
  store_serializable sto →
  f st sto = Ok (st', sto') →
  state_serializable st' ∧ store_serializable sto'.
Proof.
  intros Hf Hst Hsto Hrun.
  destruct (example_node_effect f Hf _ _ _ _ Hrun) as [Hstate Hstore].
  split; [|by apply Hstore].
  destruct Hstate as [->|(k & v & -> & Hv)]; [done|].
  apply map_Forall_insert_2; [by apply Hv | done].
Qed.

Lemma clear_serializable (t : key) (store : Store) :
  store_serializable store → store_serializable (clear t store).
Proof.
  intros Hs. unfold clear. case_decide; [|done].
  by apply map_Forall_delete.
Qed.

(** Every store the program can get to holds serializable messages. *)
Lemma reachable_store_serializable (store : Store) :
  reachable_store store → store_serializable store.
Proof.
  induction 1 as [|t store _ IH|t role content store _ IH|t store _ IH
                  |f st st' store store' _ IH Hf Hst Hrun].
  - apply map_Forall_empty.
  - by apply store_getitem_serializable.
  - by apply add_message_serializable.
  - by apply clear_serializable.
  - by destruct (example_nodes_keep_serializable f st st' store store').
Qed.

(** C3: for every example node and every store the program can get to,
    a serializable input state gives a serializable returned state (and
    the store the node leaves is again one the program can get to). *)
Theorem example_nodes_return_serializable (f : NodeFn) (st st' : State)
    (sto sto' : Store) :
  is_example_node f →
  reachable_store sto →
  state_serializable st →
  f st sto = Ok (st', sto') →
  state_serializable st' ∧ reachable_store sto'.
Proof.
  intros Hf Hreach Hst Hrun. split.
  - apply (example_nodes_keep_serializable f st st' sto sto'); try done.
    by apply reachable_store_serializable.
  - by apply (reach_node f st st' sto sto').
Qed.

Lemma example_nodes_return_serializable_witness :
  state_serializable
    (<["messages" :=
         VList [VDict [("role", VStr "user");
                       ("content", VStr "Previous message")]]]>
       ({[ "thread_id" := VStr "test_thread"; "input" := VStr "Hello there!" ]}
        : State))
  ∧ reachable_store
      (add_message (KStr "test_thread") (VStr "user") (VStr "Previous message")
         init).
Proof.
  apply (example_nodes_return_serializable load_history
           {[ "thread_id" := VStr "test_thread"; "input" := VStr "Hello there!" ]}
           _
           (add_message (KStr "test_thread") (VStr "user")
              (VStr "Previous message") init)
           _).
  - exists "load_history". unfold example_nodes. set_solver.
  - apply reach_add, reach_init.
  - apply map_Forall_insert_2; [reflexivity|].
    apply map_Forall_insert_2; [reflexivity|]. apply map_Forall_empty.
  - reflexivity.
Defined.

(** ** add_user_message and save_response *)

(** C9: with 'input' absent or the empty string, [add_user_message]
    returns the state it was given and leaves the store as it was. *)
Theorem add_user_message_empty_input (st : State) (sto : Store) :
  st !! "input" = None ∨ st !! "input" = Some (VStr "") →
  add_user_message st sto = Ok (st, sto).
Proof.
  intros H. unfold add_user_message.
  assert (get st "input" (VStr "") = VStr "") as ->; [|done].
  destruct H as [H|H]; [by apply get_absent | by apply get_lookup].
Qed.

Lemma add_user_message_empty_input_witness :
  add_user_message
    {[ "thread_id" := VStr "test"; "input" := VStr ""; "messages" := VList [] ]}
    init
  = Ok ({[ "thread_id" := VStr "test"; "input" := VStr ""; "messages" := VList [] ]},
        init).
Proof.
  apply add_user_message_empty_input. right. reflexivity.
Defined.

(** A state with a reply and no 'messages' entry: [save_response] raises
    [KeyError] and returns nothing. *)
Lemma save_response_without_messages :
  let st : State := {[ "response" := VStr "Hi" ]} in
  st !! "response" = Some (VStr "Hi")
  ∧ save_response st init = Raise (KeyError "messages").
Proof. split; reflexivity. Qed.

(** C10 (amended): for a state whose 'response' is a non-empty string,
    whose 'messages' is a list and whose 'thread_id' (by default
    'default') is hashable, [save_response] appends the assistant message
    to 'messages' and adds to the thread's stored list the user message,
    with the state's 'input' (by default the empty string), and then the
    assistant message.  With 'response' absent or empty, the state and the
    store are returned as they were. *)
Theorem save_response_appends (st : State) (sto : Store) :
  (∀ response messages k,
     st !! "response" = Some (VStr response) →
     response ≠ "" →
     st !! "messages" = Some (VList messages) →
     hash_key (get st "thread_id" (VStr "default")) = Ok k →
     save_response st sto
     = Ok (<["messages" :=
               VList (messages
                      ++ [VDict [("role", VStr "assistant");
                                 ("content", VStr response)]])]> st,
           <[k := (history k sto
                   ++ [VDict [("role", VStr "user");
                              ("content", get st "input" (VStr ""))];
                       VDict [("role", VStr "assistant");
                              ("content", VStr response)]])%list]> sto))
  ∧ (st !! "response" = None ∨ st !! "response" = Some (VStr "") →
     save_response st sto = Ok (st, sto)).
Proof.
  split.
  - intros response messages k Hr Hne Hm Hk. unfold save_response.
    rewrite (get_lookup _ _ _ _ Hr).
    apply truthy_VStr in Hne. rewrite Hne. simpl negb. cbv iota.
    unfold getitem. rewrite Hm. simpl. rewrite Hk. simpl.
    rewrite get_insert_ne by done. f_equal. f_equal.
    rewrite !add_message_insert. unfold history at 1.
    rewrite lookup_insert_eq. simpl. rewrite insert_insert_eq.
    by rewrite <- app_assoc.
  - intros H. unfold save_response.
    assert (get st "response" (VStr "") = VStr "") as ->; [|done].
    destruct H as [H|H]; [by apply get_absent | by apply get_lookup].
Qed.

Lemma save_response_appends_witness :
  save_response
    {[ "thread_id" := VStr "test_save"; "input" := VStr "Test input";
       "response" := VStr "Test response"; "messages" := VList [] ]}
    init
  = Ok (<["messages" := VList [message (VStr "assistant") (VStr "Test response")]]>
          {[ "thread_id" := VStr "test_save"; "input" := VStr "Test input";
             "response" := VStr "Test response"; "messages" := VList [] ]},
        <[KStr "test_save" :=
            [message (VStr "user") (VStr "Test input");
             message (VStr "assistant") (VStr "Test response")]]> init).
Proof.
  assert ("Test response" ≠ "") as Hne by discriminate.
  exact (proj1 (save_response_appends
                  {[ "thread_id" := VStr "test_save"; "input" := VStr "Test input";
                     "response" := VStr "Test response"; "messages" := VList [] ]}
                  init)
           "Test response" [] (KStr "test_save") eq_refl Hne eq_refl eq_refl).
Defined.

(** ** generate_response *)



Lemma has_role_and_text_inv (msg : value) :
  has_role_and_text msg = true →
  ∃ role text, subscript msg "role" = Ok role
               ∧ subscript msg "content" = Ok (VStr text).
Proof.
  destruct msg as [| | | | |d|]; simpl; try discriminate.
  destruct (dict_get "role" d) as [role|]; [|discriminate].
  destruct (dict_get "content" d) as [[]|]; try discriminate. eauto.
Qed.

Lemma context_lines_Ok (msgs : list value) :
  Forall (fun msg => has_role_and_text msg = true) msgs →
  ∃ lines, mapM context_line msgs = Ok lines.
Proof.
  induction 1 as [|msg msgs Hmsg _ [lines IH]]; [by exists []|].
  apply has_role_and_text_inv in Hmsg as (role & text & Hr & Hc).
  assert (context_line msg = Ok (str role ++ ": " ++ text)) as Hline.
  { unfold context_line. rewrite Hr. simpl. by rewrite Hc. }
  cbn [mapM]. rewrite Hline. simpl. rewrite IH. simpl. eauto.
Qed.

Lemma choose_response_nonempty (messages last_msg content : value) (n : Z)
    (user_message : string) :
  len messages = Ok n →
  index_last messages = Ok last_msg →
  subscript last_msg "content" = Ok content →
  ∃ response, choose_response messages user_message = Ok response
              ∧ response ≠ "".
Proof.
  intros Hn Hlast Hc. unfold choose_response.
  repeat (match goal with
          | |- context [if ?b then _ else _] => destruct b
          end; [eexists; split; [reflexivity|discriminate]|]).
  rewrite Hn, Hlast. simpl. rewrite Hc. simpl.
  eexists; split; [reflexivity|discriminate].
Qed.

(** A list with one message dict that has 'content' and no 'role': the
    call raises [KeyError] on [msg['role']]. *)
Lemma generate_response_without_role :
  let msgs := [VDict [("content", VStr "Hello")]] in
  let st : State := {[ "messages" := VList msgs ]} in
  st !! "messages" = Some (VList msgs)
  ∧ msgs ≠ []
  ∧ Forall (fun msg => has_text_content msg = true) msgs
  ∧ generate_response st init = Raise (KeyError "role").
Proof.
  split_and!; [reflexivity|discriminate| |reflexivity].
  by repeat constructor.
Qed.

(** C8 (amended): for a state whose 'messages' is a non-empty list of
    dicts that each have a 'role' entry and a string 'content' entry,
    [generate_response] returns the state with 'response' set to a
    non-empty string; for a state whose 'messages' is absent or the empty
    list it raises [IndexError], from [messages[-1]] in the echo branch. *)
Theorem generate_response_total_on_histories (st : State) (sto : Store) :
  (∀ msgs,
     st !! "messages" = Some (VList msgs) →
     msgs ≠ [] →
     Forall (fun msg => has_role_and_text msg = true) msgs →
     ∃ response,
       response ≠ ""
       ∧ generate_response st sto = Ok (<["response" := VStr response]> st, sto))
  ∧ (st !! "messages" = None ∨ st !! "messages" = Some (VList []) →
     generate_response st sto = Raise IndexError).
Proof.
  split.
  - intros msgs Hm Hne Hall. unfold generate_response.
    rewrite (get_lookup _ _ _ _ Hm). simpl last_items.
    destruct (context_lines_Ok (drop (length msgs - 5) msgs)) as [lines Hlines];
      [by apply Forall_drop|].
    assert (is_Some (last msgs)) as [last_msg Hlast] by (by apply last_is_Some).
    assert (has_role_and_text last_msg = true) as Hwf.
    { apply last_Some in Hlast as [l' ->].
      apply Forall_app in Hall as [_ Hall]. by inversion Hall. }
    apply has_role_and_text_inv in Hwf as (role & text & _ & Hc).
    destruct (choose_response_nonempty (VList msgs) last_msg (VStr text)
                (Z.of_nat (length msgs)) (lower_string text))
      as (response & Hresp & Hnonempty); [done|by simpl; rewrite Hlast|done|].
    exists response. split; [done|].
    assert (truthy (VList msgs) = true) as -> by (by destruct msgs).
    assert (index_last (VList msgs) = Ok last_msg) as ->
      by (by simpl; rewrite Hlast).
    rewrite !bind_of_Ok, Hlines, !bind_of_Ok, Hc, bind_of_Ok.
    simpl lower. by rewrite bind_of_Ok, Hresp.
  - intros H. unfold generate_response.
    assert (get st "messages" (VList []) = VList []) as ->; [|done].
    destruct H as [H|H]; [by apply get_absent | by apply get_lookup].
Qed.

Lemma generate_response_total_on_histories_witness :
  (∃ response,
     response ≠ ""
     ∧ generate_response
         {[ "thread_id" := VStr "test";
            "messages" := VList [message (VStr "user") (VStr "Hello")] ]} init
       = Ok (<["response" := VStr response]>
               {[ "thread_id" := VStr "test";
                  "messages" := VList [message (VStr "user") (VStr "Hello")] ]},
             init))
  ∧ generate_response {[ "thread_id" := VStr "test" ]} init = Raise IndexError.
Proof.
  split.
  - apply (proj1 (generate_response_total_on_histories _ init)
             [message (VStr "user") (VStr "Hello")]).
    + reflexivity.
    + discriminate.
    + by repeat constructor.
  - apply (proj2 (generate_response_total_on_histories _ init)).
    left. reflexivity.
Defined.


(** * Properties of the engine *)

Import Engine.

(** ** The cycle search finds every cycle *)

Lemma first_some_is_Some {A B : Type} (f : A → option B) (l : list A) (a : A) :
  a ∈ l → is_Some (f a) → is_Some (first_some f l).
Proof.
  intros Hin Hf. induction l as [|x l IH]; [by apply elem_of_nil in Hin|].
  simpl. destruct (f x) eqn:E; [eauto|].
  apply elem_of_cons in Hin as [->|Hin]; [|by apply IH].
  rewrite E in Hf. by destruct Hf.
Qed.

Lemma first_some_Some {A B : Type} (f : A → option B) (l : list A) (b : B) :
  first_some f l = Some b → ∃ a, a ∈ l ∧ f a = Some b.
Proof.
  induction l as [|x l IH]; simpl; [discriminate|].
  destruct (f x) eqn:E.
  - intros [= <-]. exists x. split; [left|done].
  - intros H. destruct (IH H) as (a & Hin & Ha). exists a. split; [by right|done].
Qed.

Lemma elem_of_successors (es : Edges) (v w : string) :
  w ∈ successors es v ↔ edge es v w.
Proof.
  unfold successors, edge. rewrite list_elem_of_fmap. split.
  - intros ([a b] & -> & Hin). apply list_elem_of_filter in Hin as [Ha Hin].
    simpl in *. by subst.
  - intros Hin. exists (v, w). split; [done|]. by apply list_elem_of_filter.
Qed.

Lemma edge_vertices (es : Edges) (v w : string) :
  edge es v w → v ∈ vertices es ∧ w ∈ vertices es.
Proof.
  unfold edge, vertices. intros Hin. rewrite !elem_of_app, !list_elem_of_fmap.
  split; [left|right]; by exists (v, w).
Qed.

Lemma live_step (es : Edges) (v : string) :
  live es v → ∃ w, edge es v w ∧ live es w.
Proof.
  intros (u & Hvu & Hcycle). apply rtc_inv in Hvu as [->|(y & Hvy & Hyu)].
  - inversion Hcycle as [? ? Huu|? y ? Huy Hyu]; subst.
    + exists u. split; [done|]. by exists u.
    + exists y. split; [done|]. exists u. split; [by apply tc_rtc|done].
  - exists y. split; [done|]. by exists u.
Qed.

Lemma dfs_complete (es : Edges) (fuel : nat) (path : list string) (v : string) :
  NoDup path →
  (∀ x, x ∈ path → x ∈ vertices es) →
  (length (vertices es) < fuel + length path)%nat →
  live es v →
  is_Some (dfs es fuel path v).
Proof.
  revert path v. induction fuel as [|fuel IH]; intros path v Hnd Hsub Hlen Hlive.
  - pose proof (submseteq_length _ _ (NoDup_submseteq _ _ Hnd Hsub)). simpl in Hlen. lia.
  - simpl. case_decide as Hin; [eauto|].
    destruct (live_step es v Hlive) as (w & Hvw & Hw).
    apply (first_some_is_Some _ _ w); [by apply elem_of_successors|].
    apply IH; [by constructor| |simpl; lia|done].
    intros x [->|Hx]%elem_of_cons; [by apply (edge_vertices es v w)|by apply Hsub].
Qed.

Lemma find_cycle_complete (es : Edges) : has_cycle es → is_Some (find_cycle es).
Proof.
  intros [v Hv]. unfold find_cycle.
  assert (live es v) as Hlive by (by exists v).
  destruct (live_step es v Hlive) as (w & Hvw & _).
  apply (first_some_is_Some _ _ v); [by apply (edge_vertices es v w)|].
  apply dfs_complete; [constructor|by intros x ?%elem_of_nil|simpl; lia|done].
Qed.

(** ** The cycle it names is one *)

Lemma walk_to_snoc (es : Edges) (l : list string) (u w : string) :
  walk_to es l u → edge es u w → walk_to es (l ++ [u]) w.
Proof.
  intros Hl Huw. induction l as [|x l IH]; [done|].
  destruct l as [|y l]; simpl in *; [done|].
  destruct Hl as [Hxy Hl]. split; [done|]. by apply IH.
Qed.

Lemma walk_to_take_until (es : Edges) (path : list string) (v w : string) :
  v ∈ path → path_to es path w →
  walk_to es (reverse (take_until v path)) w
  ∧ head (reverse (take_until v path)) = Some v.
Proof.
  revert w. induction path as [|u path IH]; intros w Hin Hpath.
  - by apply elem_of_nil in Hin.
  - destruct Hpath as [Huw Hpath]. simpl. case_decide as Hu.
    + subst. done.
    + apply elem_of_cons in Hin as [->|Hin]; [done|].
      destruct (IH u Hin Hpath) as [Hwalk Hhead].
      rewrite reverse_cons. split; [by apply walk_to_snoc|].
      destruct (reverse (take_until v path)); [done|]. done.
Qed.

Lemma dfs_sound (es : Edges) (fuel : nat) (path : list string) (v : string)
    (c : list string) :
  path_to es path v → dfs es fuel path v = Some c → is_cycle es c.
Proof.
  revert path v. induction fuel as [|fuel IH]; intros path v Hpath; simpl;
    [discriminate|].
  case_decide as Hin.
  - intros [= <-]. unfold is_cycle.
    destruct (walk_to_take_until es path v v Hin Hpath) as [Hwalk ->]. done.
  - intros (w & Hw & Hdfs)%first_some_Some.
    apply (IH (v :: path) w); [|done]. split; [|done].
    by apply elem_of_successors.
Qed.

Lemma find_cycle_sound (es : Edges) (c : list string) :
  find_cycle es = Some c → is_cycle es c.
Proof.
  unfold find_cycle. intros (v & _ & Hdfs)%first_some_Some.
  exact (dfs_sound es _ [] v c I Hdfs).
Qed.

(** C7: for every plan with a cycle, [build] fails with [CycleError],
    which names a cycle of the plan, and gives no Graph. *)
Theorem build_rejects_cycles {W : Type} (name : string) (nodes : list (Node W))
    (plan : Plan) :
  has_cycle (plan_edges plan) →
  ∃ cycle, build name nodes plan = inr (CycleError cycle)
           ∧ is_cycle (plan_edges plan) cycle.
Proof.
  intros Hcycle. destruct (find_cycle_complete _ Hcycle) as [cycle Hfind].
  exists cycle. split; [|by apply find_cycle_sound].
  unfold build. by rewrite Hfind.
Qed.

Lemma build_rejects_cycles_witness :
  ∃ cycle,
    build "loop" hello_world_nodes
      (Dag [("greet", "farewell"); ("farewell", "greet")])
    = inr (CycleError cycle)
    ∧ is_cycle [("greet", "farewell"); ("farewell", "greet")] cycle.
Proof.
  apply (build_rejects_cycles "loop" hello_world_nodes
           (Dag [("greet", "farewell"); ("farewell", "greet")])).
  exists "greet". apply (tc_l _ _ "farewell").
  - left.
  - apply tc_once. right. left.
Defined.

(** ** Resuming a run *)

(** What [run_plan] returns, the external stores it leaves and the Nodes
    it invokes depend on the stores it starts from, not on the ledger, the
    clock or the Nodes invoked before. *)
Lemma run_plan_world {W : Type} (g : Graph W) (rid : string)
    (remaining : list string) (idx : nat) (st : State) (env env' : Env W) :
  world env = world env' →
  (run_plan g rid idx remaining st env).1 = (run_plan g rid idx remaining st env').1
  ∧ world (run_plan g rid idx remaining st env).2
    = world (run_plan g rid idx remaining st env').2
  ∧ ∃ names,
      invoked (run_plan g rid idx remaining st env).2 = (invoked env ++ names)%list
      ∧ invoked (run_plan g rid idx remaining st env').2
        = (invoked env' ++ names)%list.
Proof.
  revert idx st env env'.
  induction remaining as [|name rest IH]; intros idx st env env' Hw; simpl.
  - split_and!; [done|done|]. exists []. by rewrite !app_nil_r.
  - destruct (find_node g name) as [nd|]; simpl.
    + rewrite <- Hw. destruct (apply nd st (world env)) as [[st' w']|e]; simpl.
      * edestruct (IH (S idx) st') as (Hres & Hworld & names & Ha & Hb);
          [|rewrite Hres, Hworld; split_and!; [done|done|]].
        { reflexivity. }
        exists (name :: names). rewrite Ha, Hb. simpl.
        by rewrite <- !app_assoc.
      * split_and!; [done|done|]. by exists [name].
    + split_and!; [done|done|]. exists []. by rewrite !app_nil_r.
Qed.




(** ** The example graphs in the engine *)

Lemma hello_world_build :
  build "HelloWorld" hello_world_nodes hello_world_plan = inl hello_world_graph.
Proof. reflexivity. Qed.

Lemma chatbot_build :
  build "ChatbotWithMemory" chatbot_nodes chatbot_plan = inl chatbot_graph.
Proof. reflexivity. Qed.

(** Executing HelloWorld on the empty state completes with the state
    [farewell (greet ∅)] and leaves two success entries in the ledger,
    [greet] and then [farewell]. *)
Lemma hello_world_execute :
  ∃ run' env',
    execute hello_world_graph hello_run fresh_env
    = Some (FinalState (farewell (greet ∅)), run', env')
    ∧ status run' = Completed
    ∧ map (fun e => (entry_node_name e, sequence_index e, outcome e)) (ledger env')
      = [("greet", 0%nat, Success); ("farewell", 1%nat, Success)].
Proof. eexists _, _. split_and!; reflexivity. Qed.

(** ** Resuming after any number of committed Nodes *)

Lemma run_plan_app {W : Type} (g : Graph W) (rid : string)
    (l1 l2 : list string) (idx : nat) (st : State) (env : Env W) :
  run_plan g rid idx (l1 ++ l2) st env
  = match run_plan g rid idx l1 st env with
    | (FinalState st', env') => run_plan g rid (idx + length l1) l2 st' env'
    | failed => failed
    end.
Proof.
  revert idx st env. induction l1 as [|name l1 IH]; intros idx st env; simpl.
  - by rewrite Nat.add_0_r.
  - destruct (find_node g name) as [nd|]; [|done].
    destruct (apply nd st (world env)) as [[st' w']|e]; [|done].
    rewrite IH. by replace (S idx + length l1)%nat with (idx + S (length l1))%nat by lia.
Qed.

(** The commit of the first Node on a ledger without a success of the run
    is the run's latest success. *)
Lemma first_commit_is_latest {W : Type} (rid name : string) (st : State)
    (env : Env W) :
  latest_success rid (ledger env) = None →
  latest_success rid (append_entry rid name O st Success env)
  = Some {| entry_run_id := rid; entry_node_name := name; sequence_index := O;
            resulting_state_snapshot := st; timestamp := clock env;
            outcome := Success |}.
Proof.
  intros Hnone. unfold latest_success, append_entry in *.
  rewrite foldl_app, Hnone. simpl. unfold is_success_of. simpl.
  by rewrite bool_decide_eq_true_2.
Qed.

(** When an execution from a ledger without a success of the run has
    committed the first [k] Nodes and stopped, an execution that finds the
    [k]-th commit as the run's latest success, and the external stores as
    they were left, ends with the result of the uninterrupted one. *)
Lemma resume_after_prefix {W : Type} (g : Graph W) (r : Run) (order : list string)
    (k : nat) (env0 envk env1 : Env W) (e : LedgerEntry) (sk : State) :
  graph_plan g = Linear order →
  latest_success (run_id r) (ledger env0) = None →
  run_plan g (run_id r) O (take (S k) order) (initial_state r) env0
  = (FinalState sk, envk) →
  (S k ≤ length order)%nat →
  latest_success (run_id r) (ledger env1) = Some e →
  sequence_index e = k →
  resulting_state_snapshot e = sk →
  world env1 = world envk →
  fst <$> (fst <$> execute g r env1) = fst <$> (fst <$> execute g r env0).
Proof.
  intros Hplan Hfresh Hprefix Hk Hlatest Hidx Hsnap Hworld.
  assert (run_plan g (run_id r) O order (initial_state r) env0
          = run_plan g (run_id r) (S k) (drop (S k) order) sk envk) as Hsplit.
  { rewrite <- (take_drop (S k) order) at 1.
    rewrite run_plan_app, Hprefix. by rewrite length_take_le. }
  unfold execute, resume_point. rewrite Hplan, Hfresh, Hlatest, Hidx, Hsnap.
  rewrite drop_0, Hsplit.
  destruct (run_plan_world g (run_id r) (drop (S k) order) (S k) sk env1 envk Hworld)
    as (Hres & _).
  destruct (run_plan g (run_id r) (S k) (drop (S k) order) sk env1) as [res1 env1'].
  destruct (run_plan g (run_id r) (S k) (drop (S k) order) sk envk) as [resk envk'].
  simpl in *. by subst.
Qed.

(** * Further properties of the examples *)

(** ** The conversation store under any sequence of calls *)

Lemma history_run_op (t : key) (op : store_op) (store : Store) :
  history t (run_op op store) = log_step t (history t store) op.
Proof.
  destruct op as [t' role content|t'|t']; simpl.
  - case_decide as Ht; [subst; apply history_add_message_eq|].
    by apply history_add_message_ne.
  - case_decide as Ht; [subst; apply history_clear_eq|].
    by apply history_clear_ne.
  - apply history_store_getitem.
Qed.

(** X1: after any sequence of [add_message], [clear] and [get_messages]
    calls on a new store, [get_messages] returns for a thread the messages
    added to it since it was last cleared, in the order of the calls. *)
Theorem store_follows_log (t : key) (ops : list store_op) :
  (get_messages t (run_ops ops init)).1 = expected_history t ops.
Proof.
  unfold get_messages. rewrite store_getitem_fst.
  unfold run_ops, expected_history.
  rewrite <- (history_init t). generalize init.
  induction ops as [|op ops IH]; intros store; [done|].
  simpl. rewrite IH. by rewrite history_run_op.
Qed.

(** X2: reading a thread registers it: after [get_messages] the thread
    is a key of the store, holding the list that was returned, and the
    other keys are the ones the store had. *)
Theorem get_messages_registers_thread (t : key) (store : Store) :
  (get_messages t store).2 !! t = Some (get_messages t store).1
  ∧ dom (get_messages t store).2 = {[ t ]} ∪ dom store.
Proof.
  unfold get_messages, store_getitem.
  destruct (store !! t) as [l|] eqn:E; simpl.
  - split; [done|]. symmetry. apply subseteq_union_1_L.
    apply singleton_subseteq_l. by apply elem_of_dom_2 in E.
  - split; [by rewrite lookup_insert_eq|]. by rewrite dom_insert_L.
Qed.

(** X3: [clear] undoes the registration a read has made: reading a
    thread the store does not know and clearing it gives the store back. *)
Theorem clear_after_read (t : key) (store : Store) :
  store !! t = None →
  clear t (get_messages t store).2 = store.
Proof.
  intros E. unfold get_messages, store_getitem, clear. rewrite E. simpl.
  rewrite lookup_insert_eq.
  destruct (decide (is_Some (Some ([] : list value)))) as [_|Hno];
    [|destruct Hno; eauto].
  rewrite delete_insert_eq. by apply delete_id.
Qed.

Lemma clear_after_read_witness :
  clear (KStr "t") (get_messages (KStr "t") init).2 = init.
Proof. apply clear_after_read. reflexivity. Defined.

(** ** What the nodes return *)

Lemma load_history_Ok (st : State) (sto : Store) (k : key) :
  hash_key (get st "thread_id" (VStr "default")) = Ok k →
  load_history st sto
  = Ok (<["messages" := VList (history k sto)]> st, (store_getitem k sto).2).
Proof.
  intros Hk. unfold load_history, get_messages. rewrite Hk, bind_of_Ok.
  rewrite <- store_getitem_fst. by destruct (store_getitem k sto).
Qed.

Lemma hash_key_Raise (v : value) (e : exn) :
  hash_key v = Raise e → e = TypeError ∧ ((∃ l, v = VList l) ∨ (∃ d, v = VDict d)).
Proof. destruct v; simpl; intros; simplify_eq; eauto. Qed.

Lemma add_user_message_falsy (st : State) (sto : Store) :
  truthy (get st "input" (VStr "")) = false →
  add_user_message st sto = Ok (st, sto).
Proof. intros H. unfold add_user_message. by rewrite H. Qed.

Lemma add_user_message_Ok (st : State) (sto : Store) (msgs : list value) :
  truthy (get st "input" (VStr "")) = true →
  st !! "messages" = Some (VList msgs) →
  add_user_message st sto
  = Ok (<["messages" :=
            VList (msgs ++ [message (VStr "user") (get st "input" (VStr ""))])]> st,
        sto).
Proof.
  intros Hin Hm. unfold add_user_message, getitem. by rewrite Hin, Hm.
Qed.

Lemma save_response_falsy (st : State) (sto : Store) :
  truthy (get st "response" (VStr "")) = false →
  save_response st sto = Ok (st, sto).
Proof. intros H. unfold save_response. by rewrite H. Qed.

Lemma save_response_Ok (st : State) (sto : Store) (msgs : list value) (k : key) :
  truthy (get st "response" (VStr "")) = true →
  st !! "messages" = Some (VList msgs) →
  hash_key (get st "thread_id" (VStr "default")) = Ok k →
  save_response st sto
  = Ok (<["messages" :=
            VList (msgs ++ [message (VStr "assistant")
                              (get st "response" (VStr ""))])]> st,
        add_message k (VStr "assistant") (get st "response" (VStr ""))
          (add_message k (VStr "user") (get st "input" (VStr "")) sto)).
Proof.
  intros Hr Hm Hk. unfold save_response, getitem. rewrite Hr, Hm, Hk. simpl.
  by rewrite get_insert_ne.
Qed.

(** X4: [load_history] sets 'messages' to the thread's stored messages
    whatever 'messages' held before, and changes no thread's stored
    messages. *)
Theorem load_history_replaces_messages (st : State) (sto : Store) (k : key)
    (old : value) :
  hash_key (get st "thread_id" (VStr "default")) = Ok k →
  ∃ sto',
    load_history (<["messages" := old]> st) sto
    = Ok (<["messages" := VList (history k sto)]> st, sto')
    ∧ ∀ t, history t sto' = history t sto.
Proof.
  intros Hk. exists (store_getitem k sto).2. split.
  - rewrite (load_history_Ok _ _ k) by (by rewrite get_insert_ne).
    by rewrite insert_insert_eq.
  - intros t. apply history_store_getitem.
Qed.

Lemma load_history_replaces_messages_witness :
  ∃ sto',
    load_history (<["messages" := VStr "stale"]> {[ "thread_id" := VStr "t" ]})
      (add_message (KStr "t") (VStr "user") (VStr "Previous message") init)
    = Ok (<["messages" :=
              VList (history (KStr "t")
                       (add_message (KStr "t") (VStr "user")
                          (VStr "Previous message") init))]>
            {[ "thread_id" := VStr "t" ]}, sto')
    ∧ ∀ t, history t sto'
           = history t (add_message (KStr "t") (VStr "user")
                          (VStr "Previous message") init).
Proof.
  apply (load_history_replaces_messages {[ "thread_id" := VStr "t" ]} _ (KStr "t")).
  reflexivity.
Defined.

(** X5: [load_history] raises exactly when 'thread_id' is a list or a
    dict, which cannot be a key of the store; in every other case it
    returns. *)
Theorem load_history_raises_iff (st : State) (sto : Store) :
  (∃ e, load_history st sto = Raise e)
  ↔ (∃ l, st !! "thread_id" = Some (VList l))
    ∨ (∃ d, st !! "thread_id" = Some (VDict d)).
Proof.
  unfold load_history, get_messages, get. split.
  - intros [e He].
    destruct (st !! "thread_id") as [v|] eqn:E; simpl in He;
      [|by destruct (store_getitem (KStr "default") sto)].
    destruct (hash_key v) as [k|e'] eqn:Hh.
    + rewrite bind_of_Ok in He. by destruct (store_getitem k sto).
    + apply hash_key_Raise in Hh as [_ [[l ->]|[d ->]]]; eauto.
  - intros [[l ->]|[d ->]]; by exists TypeError.
Qed.

Lemma load_history_raises_iff_witness :
  ∃ e, load_history {[ "thread_id" := VList [VStr "a"; VStr "b"] ]} init = Raise e.
Proof.
  apply (proj2 (load_history_raises_iff
                  {[ "thread_id" := VList [VStr "a"; VStr "b"] ]} init)).
  left. eexists. reflexivity.
Defined.

Lemma append_Raise (v x : value) (e : exn) :
  append v x = Raise e → e = AttributeError ∧ ∀ l, v ≠ VList l.
Proof. destruct v; simpl; intros; simplify_eq; split; congruence. Qed.

(** X6: with a non-empty string under 'input' and a list under
    'messages', [add_user_message] appends the user message with that
    text to the list and leaves the rest of the state and the store as
    they were. *)
Theorem add_user_message_appends (st : State) (sto : Store) (input : string)
    (msgs : list value) :
  st !! "input" = Some (VStr input) →
  input ≠ "" →
  st !! "messages" = Some (VList msgs) →
  add_user_message st sto
  = Ok (<["messages" :=
            VList (msgs ++ [VDict [("role", VStr "user");
                                   ("content", VStr input)]])]> st,
        sto).
Proof.
  intros Hin Hne Hm.
  rewrite (add_user_message_Ok st sto msgs); [|rewrite (get_lookup _ _ _ _ Hin)|done].
  - by rewrite (get_lookup _ _ _ _ Hin).
  - by apply truthy_VStr.
Qed.

Lemma add_user_message_appends_witness :
  add_user_message (turn_state "test_thread" "Hello there!") init
  = Ok (<["messages" := VList [message (VStr "user") (VStr "Hello there!")]]>
          (turn_state "test_thread" "Hello there!"), init).
Proof.
  assert ("Hello there!" ≠ "") as Hne by discriminate.
  exact (add_user_message_appends (turn_state "test_thread" "Hello there!") init
           "Hello there!" [] eq_refl Hne eq_refl).
Defined.

(** X7: [add_user_message] returns exactly when 'input' is absent or
    falsy, or 'messages' is a list; with a truthy 'input' it raises
    [KeyError] when 'messages' is absent and [AttributeError] when
    'messages' is not a list. *)
Theorem add_user_message_returns_iff (st : State) (sto : Store) :
  ((∃ r, add_user_message st sto = Ok r)
   ↔ truthy (get st "input" (VStr "")) = false
     ∨ ∃ msgs, st !! "messages" = Some (VList msgs))
  ∧ (truthy (get st "input" (VStr "")) = true →
     (st !! "messages" = None →
      add_user_message st sto = Raise (KeyError "messages"))
     ∧ (∀ v, st !! "messages" = Some v → (∀ l, v ≠ VList l) →
        add_user_message st sto = Raise AttributeError)).
Proof.
  split; [split|].
  - intros [r Hr]. destruct (truthy (get st "input" (VStr ""))) eqn:Hin; [|by left].
    right. unfold add_user_message in Hr. rewrite Hin in Hr. simpl in Hr.
    apply bind_Ok in Hr as (v & Hv & Hr). apply bind_Ok in Hr as (v' & Hv' & _).
    apply getitem_Ok in Hv. apply append_Ok in Hv' as (l & -> & _). eauto.
  - intros [Hin|[msgs Hm]].
    + eexists. by apply add_user_message_falsy.
    + destruct (truthy (get st "input" (VStr ""))) eqn:Hin.
      * eexists. by apply add_user_message_Ok.
      * eexists. by apply add_user_message_falsy.
  - intros Hin. unfold add_user_message, getitem. rewrite Hin. simpl. split.
    + by intros ->.
    + intros v -> Hv. simpl.
      destruct (append v _) as [v'|e] eqn:Ha.
      * apply append_Ok in Ha as (l & -> & _). by destruct (Hv l).
      * apply append_Raise in Ha as [-> _]. done.
Qed.

Lemma add_user_message_returns_iff_witness :
  ((∃ r, add_user_message {[ "input" := VStr "Hi" ]} init = Ok r)
   ↔ truthy (get {[ "input" := VStr "Hi" ]} "input" (VStr "")) = false
     ∨ ∃ msgs, ({[ "input" := VStr "Hi" ]} : State) !! "messages"
                = Some (VList msgs))
  ∧ add_user_message {[ "input" := VStr "Hi" ]} init = Raise (KeyError "messages")
  ∧ add_user_message {[ "input" := VStr "Hi"; "messages" := VNone ]} init
    = Raise AttributeError.
Proof.
  split_and!.
  - apply (add_user_message_returns_iff {[ "input" := VStr "Hi" ]} init).
  - apply (add_user_message_returns_iff {[ "input" := VStr "Hi" ]} init);
      reflexivity.
  - refine (proj2 (proj2 (add_user_message_returns_iff
                            {[ "input" := VStr "Hi"; "messages" := VNone ]} init)
                     _) VNone _ _).
    + reflexivity.
    + reflexivity.
    + discriminate.
Defined.

(** ** generate_response: when it returns, and what it replies *)

Lemma context_line_returns (msg : value) :
  (∃ line, context_line msg = Ok line) ↔ has_role_and_content msg = true.
Proof.
  unfold context_line, has_role_and_content, subscript.
  destruct msg as [| | | | |d|]; simpl;
    try (split; [intros [? ?]; discriminate | discriminate]).
  destruct (dict_get "role" d); simpl;
    [|split; [intros [? ?]; discriminate | discriminate]].
  destruct (dict_get "content" d); simpl;
    [|split; [intros [? ?]; discriminate | discriminate]].
  split; eauto.
Qed.

Lemma mapM_returns {A B : Type} (f : A → result B) (l : list A) :
  (∃ bs, mapM f l = Ok bs) ↔ Forall (fun a => ∃ b, f a = Ok b) l.
Proof.
  induction l as [|a l IH]; simpl.
  - split; [constructor | eauto].
  - split.
    + intros [bs H]. apply bind_Ok in H as (b & Hb & H).
      apply bind_Ok in H as (bs' & Hbs & _).
      constructor; [eauto | apply IH; eauto].
    + intros H. inversion H as [|? ? [b Hb] Hl]; subst.
      apply IH in Hl as [bs Hbs]. rewrite Hb, bind_of_Ok, Hbs. simpl. eauto.
Qed.

Lemma context_lines_return (msgs : list value) :
  (∃ lines, mapM context_line msgs = Ok lines)
  ↔ Forall (fun msg => has_role_and_content msg = true) msgs.
Proof.
  rewrite mapM_returns. apply Forall_iff. intros msg. apply context_line_returns.
Qed.

Lemma choose_response_reply (messages last_msg : value) (text : string) (n : Z) :
  len messages = Ok n →
  index_last messages = Ok last_msg →
  subscript last_msg "content" = Ok (VStr text) →
  choose_response messages (lower_string text) = Ok (reply text n).
Proof.
  intros Hn Hlast Hc. unfold choose_response, reply.
  repeat (match goal with
          | |- context [if ?b then _ else _] => destruct b
          end; [reflexivity|]).
  by rewrite Hn, Hlast, bind_of_Ok, bind_of_Ok, Hc.
Qed.

Lemma generate_response_Ok (st : State) (sto : Store) (msgs : list value)
    (last_msg : value) (text : string) :
  st !! "messages" = Some (VList msgs) →
  Forall (fun msg => has_role_and_content msg = true)
         (drop (length msgs - 5) msgs) →
  last msgs = Some last_msg →
  subscript last_msg "content" = Ok (VStr text) →
  generate_response st sto
  = Ok (<["response" := VStr (reply text (Z.of_nat (length msgs)))]> st, sto).
Proof.
  intros Hm Hall Hlast Hc. unfold generate_response.
  rewrite (get_lookup _ _ _ _ Hm). simpl last_items.
  apply context_lines_return in Hall as [lines Hlines].
  assert (truthy (VList msgs) = true) as -> by (by destruct msgs).
  assert (index_last (VList msgs) = Ok last_msg) as Hidx
    by (by simpl; rewrite Hlast).
  rewrite Hidx, !bind_of_Ok, Hlines, !bind_of_Ok, Hc, bind_of_Ok.
  simpl lower. rewrite bind_of_Ok.
  by rewrite (choose_response_reply _ last_msg text (Z.of_nat (length msgs))).
Qed.

Lemma last_chars_nonempty (n : nat) (s : string) :
  s ≠ "" → last_chars (S n) s ≠ "".
Proof.
  induction s as [|c s IH]; [done|]. intros _. simpl.
  destruct (String.length s <? S n)%nat eqn:E; [done|].
  apply IH. intros ->. simpl in E. discriminate.
Qed.

Lemma generate_response_needs_list (st : State) (sto : Store)
    (r : State * Store) :
  generate_response st sto = Ok r →
  ∃ msgs, get st "messages" (VList []) = VList msgs.
Proof.
  unfold generate_response. intros H.
  destruct (get st "messages" (VList [])) as [| | |s|l| |]; try discriminate;
    [|eauto].
  apply bind_Ok in H as (recent & Hrecent & H).
  apply bind_Ok in H as (lines & Hlines & H).
  simpl in Hrecent. simplify_eq.
  destruct s as [|c s].
  - by vm_compute in H.
  - pose proof (last_chars_nonempty 4 (String c s)) as Hne.
    destruct (last_chars 5 (String c s)); [by destruct Hne|].
    by simpl in Hlines.
Qed.

Lemma generate_response_Ok_inv (st : State) (sto : Store) (r : State * Store) :
  generate_response st sto = Ok r →
  ∃ msgs last_msg text,
    st !! "messages" = Some (VList msgs)
    ∧ Forall (fun msg => has_role_and_content msg = true)
             (drop (length msgs - 5) msgs)
    ∧ last msgs = Some last_msg
    ∧ subscript last_msg "content" = Ok (VStr text).
Proof.
  intros H.
  destruct (generate_response_needs_list _ _ _ H) as [msgs Hget].
  unfold generate_response in H. rewrite Hget in H.
  apply bind_Ok in H as (recent & Hrecent & H).
  apply bind_Ok in H as (lines & Hlines & H).
  apply bind_Ok in H as (um & Hum & H).
  simpl in Hrecent. simplify_eq.
  destruct (last msgs) as [last_msg|] eqn:Hlast.
  - assert (truthy (VList msgs) = true) as Ht by (by destruct msgs).
    rewrite Ht in Hum. simpl in Hum. rewrite Hlast, bind_of_Ok in Hum.
    apply bind_Ok in Hum as (content & Hc & Hlow).
    destruct content; try discriminate.
    exists msgs, last_msg, s.
    split_and!; [|apply context_lines_return; eauto|done|done].
    unfold get in Hget. destruct (st !! "messages") as [v|]; simpl in Hget;
      [by subst | by simplify_eq].
  - apply last_None in Hlast as ->. simpl in Hum. simplify_eq.
Qed.

(** X8: [generate_response] returns exactly when 'messages' is a list
    whose last five entries are dicts with 'role' and 'content' and whose
    last entry has a string under 'content'; the entries before the last
    five are not looked at. *)
Theorem generate_response_returns_iff (st : State) (sto : Store) :
  (∃ r, generate_response st sto = Ok r)
  ↔ ∃ msgs last_msg text,
      st !! "messages" = Some (VList msgs)
      ∧ Forall (fun msg => has_role_and_content msg = true)
               (drop (length msgs - 5) msgs)
      ∧ last msgs = Some last_msg
      ∧ subscript last_msg "content" = Ok (VStr text).
Proof.
  split.
  - intros [r H]. by eapply generate_response_Ok_inv.
  - intros (msgs & last_msg & text & Hm & Hall & Hlast & Hc).
    eexists. by eapply generate_response_Ok.
Qed.

Lemma generate_response_returns_iff_witness :
  ∃ r, generate_response
         {[ "messages" :=
              VList [VStr "not a message"; message (VStr "user") (VStr "One");
                     message (VStr "assistant") (VStr "Two");
                     message (VStr "user") (VStr "Three");
                     message (VStr "assistant") (VStr "Four");
                     message (VStr "user") (VStr "Five")] ]} init = Ok r.
Proof.
  apply (proj2 (generate_response_returns_iff _ init)).
  eexists _, (message (VStr "user") (VStr "Five")), "Five".
  split_and!; [reflexivity| |reflexivity|reflexivity].
  by repeat constructor.
Defined.

(** X9: the reply depends only on the text of the last message and on
    the number of messages: two histories that agree on these get the same
    'response', whatever the other messages say. *)
Theorem generate_response_ignores_context (st1 st2 st1' st2' : State)
    (sto1 sto2 sto1' sto2' : Store) (msgs1 msgs2 : list value)
    (m1 m2 : value) (content : value) :
  st1 !! "messages" = Some (VList msgs1) →
  st2 !! "messages" = Some (VList msgs2) →
  length msgs1 = length msgs2 →
  last msgs1 = Some m1 →
  last msgs2 = Some m2 →
  subscript m1 "content" = Ok content →
  subscript m2 "content" = Ok content →
  generate_response st1 sto1 = Ok (st1', sto1') →
  generate_response st2 sto2 = Ok (st2', sto2') →
  st1' !! "response" = st2' !! "response".
Proof.
  intros Hm1 Hm2 Hlen Hl1 Hl2 Hc1 Hc2 H1 H2.
  destruct (generate_response_Ok_inv _ _ _ H1)
    as (msgs1' & m1' & t1 & Hm1' & Hall1 & Hl1' & Hc1').
  destruct (generate_response_Ok_inv _ _ _ H2)
    as (msgs2' & m2' & t2 & Hm2' & Hall2 & Hl2' & Hc2').
  simplify_eq.
  rewrite (generate_response_Ok _ _ _ _ _ Hm1 Hall1 Hl1 Hc1') in H1.
  rewrite (generate_response_Ok _ _ _ _ _ Hm2 Hall2 Hl2 Hc2') in H2.
  simplify_eq. rewrite !lookup_insert_eq.
  rewrite Hc1 in Hc1'. rewrite Hc2 in Hc2'. simplify_eq. by rewrite Hlen.
Qed.

Lemma generate_response_ignores_context_witness :
  (<["response" := VStr (reply "Tell me more" 2)]>
     ({[ "messages" := VList [message (VStr "user") (VStr "I like tea");
                              message (VStr "user") (VStr "Tell me more")] ]}
      : State)) !! "response"
  = (<["response" := VStr (reply "Tell me more" 2)]>
       ({[ "messages" := VList [message (VStr "assistant") (VStr "Coffee then?");
                                message (VStr "user") (VStr "Tell me more")] ]}
        : State)) !! "response".
Proof.
  exact (generate_response_ignores_context
           {[ "messages" := VList [message (VStr "user") (VStr "I like tea");
                                   message (VStr "user") (VStr "Tell me more")] ]}
           {[ "messages" := VList [message (VStr "assistant") (VStr "Coffee then?");
                                   message (VStr "user") (VStr "Tell me more")] ]}
           _ _ init init init init _ _
           (message (VStr "user") (VStr "Tell me more"))
           (message (VStr "user") (VStr "Tell me more"))
           (VStr "Tell me more")
           eq_refl eq_refl eq_refl eq_refl eq_refl eq_refl eq_refl eq_refl eq_refl).
Defined.

(** X10: when the text of the last message, in lower case, has "hi" or
    "hello" anywhere in it (as in "this" or "nothing"), the reply is the
    greeting, whatever else the text says. *)
Theorem generate_response_greets (st : State) (sto : Store) (msgs : list value)
    (last_msg : value) (text : string) :
  st !! "messages" = Some (VList msgs) →
  Forall (fun msg => has_role_and_content msg = true)
         (drop (length msgs - 5) msgs) →
  last msgs = Some last_msg →
  subscript last_msg "content" = Ok (VStr text) →
  contains "hello" (lower_string text) = true
  ∨ contains "hi" (lower_string text) = true →
  generate_response st sto
  = Ok (<["response" := VStr "Hello! How can I help you today?"]> st, sto).
Proof.
  intros Hm Hall Hlast Hc Hkey.
  rewrite (generate_response_Ok st sto msgs last_msg text) by done.
  unfold reply. simpl.
  assert (contains "hello" (lower_string text)
          || contains "hi" (lower_string text) = true) as ->; [|done].
  apply orb_true_iff. destruct Hkey; auto.
Qed.

Lemma generate_response_greets_witness :
  generate_response
    {[ "messages" := VList [message (VStr "user") (VStr "What is THIS name?")] ]}
    init
  = Ok (<["response" := VStr "Hello! How can I help you today?"]>
          {[ "messages" :=
               VList [message (VStr "user") (VStr "What is THIS name?")] ]},
        init).
Proof.
  refine (generate_response_greets _ init
            [message (VStr "user") (VStr "What is THIS name?")]
            (message (VStr "user") (VStr "What is THIS name?"))
            "What is THIS name?" _ _ _ _ _).
  - reflexivity.
  - by repeat constructor.
  - reflexivity.
  - reflexivity.
  - right. reflexivity.
Defined.

Lemma prefix_cons (a b : ascii) (s1 s2 : string) :
  String.prefix (String a s1) (String b s2) = true →
  a = b ∧ String.prefix s1 s2 = true.
Proof.
  change (String.prefix (String a s1) (String b s2))
    with (if ascii_dec a b then String.prefix s1 s2 else false).
  by destruct (ascii_dec a b).
Qed.

Lemma contains_later (needle hay : string) (c : ascii) :
  contains needle hay = true → contains needle (String c hay) = true.
Proof.
  intros H.
  change (String.prefix needle (String c hay) || contains needle hay = true).
  rewrite H. apply orb_true_r.
Qed.

Lemma prefix_contains (needle hay : string) :
  String.prefix needle hay = true → contains needle hay = true.
Proof.
  intros H. destruct hay as [|c hay].
  - change (String.prefix needle "" || false = true). by rewrite H.
  - change (String.prefix needle (String c hay) || contains needle hay = true).
    by rewrite H.
Qed.

(** X11: in the farewell rule the test for "goodbye" never decides: a
    text that contains "goodbye" contains "bye". *)
Theorem goodbye_test_is_redundant (user_message : string) :
  contains "bye" user_message || contains "goodbye" user_message
  = contains "bye" user_message.
Proof.
  destruct (contains "bye" user_message) eqn:Hbye; [done|]. simpl.
  destruct (contains "goodbye" user_message) eqn:Hgood; [|done].
  exfalso. revert Hbye Hgood.
  induction user_message as [|c s IH]; [discriminate|].
  intros Hbye Hgood.
  change (contains "bye" (String c s))
    with (String.prefix "bye" (String c s) || contains "bye" s) in Hbye.
  change (contains "goodbye" (String c s))
    with (String.prefix "goodbye" (String c s) || contains "goodbye" s) in Hgood.
  apply orb_false_iff in Hbye as [_ Hbye].
  apply orb_true_iff in Hgood as [Hpre|Hgood]; [|by apply IH].
  clear IH.
  apply prefix_cons in Hpre as [<- Hpre].
  do 6 (destruct s as [|? s]; [by vm_compute in Hpre|];
        apply prefix_cons in Hpre as [<- Hpre]).
  rewrite !contains_later in Hbye; [done|].
  apply prefix_contains. by destruct s.
Qed.

(** ** What a node leaves alone *)

Lemma save_response_Ok_inv (st st' : State) (sto sto' : Store) :
  save_response st sto = Ok (st', sto') →
  (truthy (get st "response" (VStr "")) = false ∧ st' = st ∧ sto' = sto)
  ∨ ∃ msgs k,
      st !! "messages" = Some (VList msgs)
      ∧ hash_key (get st "thread_id" (VStr "default")) = Ok k
      ∧ truthy (get st "response" (VStr "")) = true.
Proof.
  intros H. destruct (truthy (get st "response" (VStr ""))) eqn:Hr.
  - right. unfold save_response in H. rewrite Hr in H. simpl in H.
    apply bind_Ok in H as (v & Hv & H). apply bind_Ok in H as (v' & Hv' & H).
    apply bind_Ok in H as (k & Hk & _).
    apply getitem_Ok in Hv. apply append_Ok in Hv' as (msgs & -> & _). eauto.
  - left. rewrite save_response_falsy in H by done. by simplify_eq.
Qed.

(** X12: a node that returns changes at most one entry of the state,
    the one under its own key ('greeting', 'farewell', 'response', or
    'messages' for the three other nodes); every other key keeps its
    value. *)
Theorem example_nodes_write_own_key (name : string) (f : NodeFn)
    (st st' : State) (sto sto' : Store) (k : string) :
  (name, f) ∈ example_nodes →
  f st sto = Ok (st', sto') →
  k ≠ written_key name →
  st' !! k = st !! k.
Proof.
  intros Hin Hrun Hk. unfold example_nodes in Hin.
  repeat (apply elem_of_cons in Hin as [Heq|Hin]; [simplify_eq|]);
    [| | | | | |by apply elem_of_nil in Hin]; simpl in Hk.
  - unfold lift, greet in Hrun. simplify_eq. by rewrite lookup_insert_ne.
  - unfold lift, farewell in Hrun. simplify_eq. by rewrite lookup_insert_ne.
  - unfold load_history in Hrun. apply bind_Ok in Hrun as (t & _ & Hrun).
    destruct (get_messages t sto). simplify_eq. by rewrite lookup_insert_ne.
  - destruct (truthy (get st "input" (VStr ""))) eqn:Hinput.
    + unfold add_user_message in Hrun. rewrite Hinput in Hrun. simpl in Hrun.
      apply bind_Ok in Hrun as (v & _ & Hrun).
      apply bind_Ok in Hrun as (v' & _ & Hrun).
      simplify_eq. by rewrite lookup_insert_ne.
    + rewrite add_user_message_falsy in Hrun by done. by simplify_eq.
  - destruct (generate_response_Ok_inv _ _ _ Hrun)
      as (msgs & m & text & Hm & Hall & Hlast & Hc).
    rewrite (generate_response_Ok _ _ _ _ _ Hm Hall Hlast Hc) in Hrun.
    simplify_eq. by rewrite lookup_insert_ne.
  - destruct (save_response_Ok_inv _ _ _ _ Hrun)
      as [(_ & -> & _)|(msgs & t & Hm & Ht & Hr)]; [done|].
    rewrite (save_response_Ok _ _ _ _ Hr Hm Ht) in Hrun.
    simplify_eq. by rewrite lookup_insert_ne.
Qed.

Lemma example_nodes_write_own_key_witness :
  (<["messages" := VList []]> (turn_state "t" "Hello")) !! "input"
  = turn_state "t" "Hello" !! "input".
Proof.
  apply (example_nodes_write_own_key "load_history" load_history
           (turn_state "t" "Hello") _ init (<[KStr "t" := []]> init) "input").
  - unfold example_nodes. set_solver.
  - reflexivity.
  - discriminate.
Defined.

(** X13: only [save_response] changes what the store holds for a
    thread, and it changes it for the thread of the state only: after
    any other node every thread has the messages it had, and after
    [save_response] every other thread has. *)
Theorem example_nodes_store_frame (name : string) (f : NodeFn)
    (st st' : State) (sto sto' : Store) (t : key) :
  (name, f) ∈ example_nodes →
  f st sto = Ok (st', sto') →
  name ≠ "save_response"
  ∨ hash_key (get st "thread_id" (VStr "default")) ≠ Ok t →
  history t sto' = history t sto.
Proof.
  intros Hin Hrun Hother. unfold example_nodes in Hin.
  repeat (apply elem_of_cons in Hin as [Heq|Hin]; [simplify_eq|]);
    [| | | | | |by apply elem_of_nil in Hin].
  - unfold lift in Hrun. by simplify_eq.
  - unfold lift in Hrun. by simplify_eq.
  - unfold load_history in Hrun. apply bind_Ok in Hrun as (k & _ & Hrun).
    unfold get_messages in Hrun. destruct (store_getitem k sto) eqn:E.
    simplify_eq. replace sto' with (store_getitem k sto).2 by (by rewrite E).
    apply history_store_getitem.
  - destruct (truthy (get st "input" (VStr ""))) eqn:Hinput.
    + unfold add_user_message in Hrun. rewrite Hinput in Hrun. simpl in Hrun.
      apply bind_Ok in Hrun as (v & _ & Hrun).
      apply bind_Ok in Hrun as (v' & _ & Hrun). by simplify_eq.
    + rewrite add_user_message_falsy in Hrun by done. by simplify_eq.
  - destruct (generate_response_Ok_inv _ _ _ Hrun)
      as (msgs & m & text & Hm & Hall & Hlast & Hc).
    rewrite (generate_response_Ok _ _ _ _ _ Hm Hall Hlast Hc) in Hrun.
    by simplify_eq.
  - destruct Hother as [Hname|Hthread]; [done|].
    destruct (save_response_Ok_inv _ _ _ _ Hrun)
      as [(_ & _ & ->)|(msgs & k & Hm & Hk & Hr)]; [done|].
    rewrite (save_response_Ok _ _ _ _ Hr Hm Hk) in Hrun. simplify_eq.
    assert (k ≠ t) as Hne by congruence.
    by rewrite !history_add_message_ne.
Qed.

Lemma example_nodes_store_frame_witness :
  history (KStr "other")
    (add_message (KStr "t") (VStr "assistant") (VStr "Hi")
       (add_message (KStr "t") (VStr "user") (VStr "") init))
  = history (KStr "other") init.
Proof.
  refine (example_nodes_store_frame "save_response" save_response
            {[ "thread_id" := VStr "t"; "response" := VStr "Hi";
               "messages" := VList [] ]} _ init _ (KStr "other") _ _ _).
  - unfold example_nodes. set_solver.
  - reflexivity.
  - right. discriminate.
Defined.

(** ** save_response: when it returns, a second call, and reading back *)

(** X14: [save_response] returns exactly when 'response' is absent or
    falsy, or 'messages' is a list and 'thread_id' can be a key of the
    store. *)
Theorem save_response_returns_iff (st : State) (sto : Store) :
  (∃ r, save_response st sto = Ok r)
  ↔ truthy (get st "response" (VStr "")) = false
    ∨ ((∃ msgs, st !! "messages" = Some (VList msgs))
       ∧ ∃ k, hash_key (get st "thread_id" (VStr "default")) = Ok k).
Proof.
  split.
  - intros [[st' sto'] H].
    destruct (truthy (get st "response" (VStr ""))) eqn:Hr; [|by left].
    right. apply save_response_Ok_inv in H as [(Hf & _)|(msgs & k & Hm & Hk & _)];
      [congruence | eauto].
  - intros [Hr|[[msgs Hm] [k Hk]]].
    + eexists. by apply save_response_falsy.
    + destruct (truthy (get st "response" (VStr ""))) eqn:Hr.
      * eexists. by eapply save_response_Ok.
      * eexists. by apply save_response_falsy.
Qed.

Lemma save_response_returns_iff_witness :
  ∃ r, save_response
         {[ "thread_id" := VStr "test_save"; "input" := VStr "Test input";
            "response" := VStr "Test response"; "messages" := VList [] ]} init
       = Ok r.
Proof.
  apply (proj2 (save_response_returns_iff _ init)).
  right. split; [by exists []|]. by exists (KStr "test_save").
Defined.

(** X15: [save_response] is not idempotent on the store: called again
    on the same state, as a retry of the node would, it returns the same
    state and stores the user and assistant messages a second time. *)
Theorem save_response_twice (st : State) (sto : Store) (msgs : list value)
    (k : key) :
  truthy (get st "response" (VStr "")) = true →
  st !! "messages" = Some (VList msgs) →
  hash_key (get st "thread_id" (VStr "default")) = Ok k →
  ∃ st' sto1 sto2,
    save_response st sto = Ok (st', sto1)
    ∧ save_response st sto1 = Ok (st', sto2)
    ∧ history k sto2
      = (history k sto
         ++ [VDict [("role", VStr "user");
                    ("content", get st "input" (VStr ""))];
             VDict [("role", VStr "assistant");
                    ("content", get st "response" (VStr ""))];
             VDict [("role", VStr "user");
                    ("content", get st "input" (VStr ""))];
             VDict [("role", VStr "assistant");
                    ("content", get st "response" (VStr ""))]])%list.
Proof.
  intros Hr Hm Hk. eexists _, _, _. split_and!.
  - by apply save_response_Ok.
  - by apply save_response_Ok.
  - rewrite !history_add_message_eq. by rewrite <- !app_assoc.
Qed.

Lemma save_response_twice_witness :
  ∃ st' sto1 sto2,
    save_response
      {[ "input" := VStr "Test input"; "response" := VStr "Test response";
         "messages" := VList [] ]} init = Ok (st', sto1)
    ∧ save_response
        {[ "input" := VStr "Test input"; "response" := VStr "Test response";
           "messages" := VList [] ]} sto1 = Ok (st', sto2)
    ∧ history (KStr "default") sto2
      = [message (VStr "user") (VStr "Test input");
         message (VStr "assistant") (VStr "Test response");
         message (VStr "user") (VStr "Test input");
         message (VStr "assistant") (VStr "Test response")].
Proof.
  exact (save_response_twice
           {[ "input" := VStr "Test input"; "response" := VStr "Test response";
              "messages" := VList [] ]} init [] (KStr "default")
           eq_refl eq_refl eq_refl).
Defined.

(** X16: what [save_response] stores is what [load_history] reads back:
    after a [save_response] that found a reply, [load_history] on a state
    of the same thread sets 'messages' to the thread's earlier messages
    followed by the user message and the assistant message. *)
Theorem save_then_load (st st2 : State) (sto : Store) (msgs : list value)
    (k : key) :
  truthy (get st "response" (VStr "")) = true →
  st !! "messages" = Some (VList msgs) →
  hash_key (get st "thread_id" (VStr "default")) = Ok k →
  hash_key (get st2 "thread_id" (VStr "default")) = Ok k →
  ∃ st' sto' sto'',
    save_response st sto = Ok (st', sto')
    ∧ load_history st2 sto'
      = Ok (<["messages" :=
                VList (history k sto
                       ++ [VDict [("role", VStr "user");
                                  ("content", get st "input" (VStr ""))];
                           VDict [("role", VStr "assistant");
                                  ("content", get st "response" (VStr ""))]])]>
              st2,
            sto'').
Proof.
  intros Hr Hm Hk Hk2. eexists _, _, _. split.
  - by apply save_response_Ok.
  - rewrite (load_history_Ok _ _ k) by done.
    rewrite !history_add_message_eq. by rewrite <- !app_assoc.
Qed.

Lemma save_then_load_witness :
  ∃ st' sto' sto'',
    save_response
      {[ "thread_id" := VStr "t"; "input" := VStr "Hello!";
         "response" := VStr "Hi"; "messages" := VList [] ]} init
    = Ok (st', sto')
    ∧ load_history (turn_state "t" "How are you?") sto'
      = Ok (<["messages" :=
                VList [message (VStr "user") (VStr "Hello!");
                       message (VStr "assistant") (VStr "Hi")]]>
              (turn_state "t" "How are you?"), sto'').
Proof.
  exact (save_then_load
           {[ "thread_id" := VStr "t"; "input" := VStr "Hello!";
              "response" := VStr "Hi"; "messages" := VList [] ]}
           (turn_state "t" "How are you?") init [] (KStr "t")
           eq_refl eq_refl eq_refl eq_refl).
Defined.

(** ** A turn of the chatbot *)

Lemma reply_nonempty (text : string) (n : Z) : reply text n ≠ "".
Proof.
  unfold reply.
  repeat (match goal with
          | |- context [if ?b then _ else _] => destruct b
          end; [discriminate|]).
  discriminate.
Qed.

Lemma generate_response_empty (st : State) (sto : Store) :
  get st "messages" (VList []) = VList [] →
  generate_response st sto = Raise IndexError.
Proof. intros H. unfold generate_response. by rewrite H. Qed.

(** The state and the store at the end of a turn, for a non-empty string
    under 'input' and a thread whose stored messages are dicts with
    'role' and 'content'. *)
Lemma conversation_turn_Ok (st : State) (sto : Store) (k : key) (input : string) :
  hash_key (get st "thread_id" (VStr "default")) = Ok k →
  st !! "input" = Some (VStr input) →
  input ≠ "" →
  Forall (fun msg => has_role_and_content msg = true) (history k sto) →
  let h := history k sto in
  let r := reply input (Z.of_nat (length h) + 1) in
  conversation_turn st sto
  = Ok (<["messages" := VList ((h ++ [message (VStr "user") (VStr input)])
                               ++ [message (VStr "assistant") (VStr r)])]>
          (<["response" := VStr r]>
             (<["messages" := VList (h ++ [message (VStr "user") (VStr input)])]>
                (<["messages" := VList h]> st))),
        add_message k (VStr "assistant") (VStr r)
          (add_message k (VStr "user") (VStr input) (store_getitem k sto).2)).
Proof.
  intros Hk Hin Hne Hall h r. unfold conversation_turn.
  rewrite (load_history_Ok st sto k Hk), bind_of_Ok. cbn [fst snd].
  fold h. set (st1 := <["messages" := VList h]> st).
  assert (get st1 "input" (VStr "") = VStr input) as Hin1.
  { unfold st1. rewrite get_insert_ne by done. by apply get_lookup. }
  rewrite (add_user_message_Ok st1 _ h);
    [|by rewrite Hin1; apply truthy_VStr|by unfold st1; rewrite lookup_insert_eq].
  rewrite bind_of_Ok, Hin1. cbn [fst snd].
  set (u := message (VStr "user") (VStr input)).
  set (st2 := <["messages" := VList (h ++ [u])]> st1).
  rewrite (generate_response_Ok st2 _ (h ++ [u]) u input);
    [|by unfold st2; rewrite lookup_insert_eq
     |apply Forall_drop, Forall_app; split; [done|by repeat constructor]
     |apply last_snoc
     |done].
  rewrite bind_of_Ok. cbn [fst snd].
  replace (Z.of_nat (length (h ++ [u]))) with (Z.of_nat (length h) + 1)
    by (rewrite length_app; simpl; lia).
  fold r. set (st3 := <["response" := VStr r]> st2).
  assert (get st3 "response" (VStr "") = VStr r) as Hr3.
  { unfold st3. apply get_lookup. by rewrite lookup_insert_eq. }
  rewrite (save_response_Ok st3 _ (h ++ [u]) k).
  - rewrite Hr3. unfold st3, st2, st1. rewrite !get_insert_ne by done.
    by rewrite (get_lookup _ _ _ _ Hin).
  - rewrite Hr3. apply truthy_VStr, reply_nonempty.
  - unfold st3, st2. rewrite lookup_insert_ne by done. by rewrite lookup_insert_eq.
  - unfold st3, st2, st1. by rewrite !get_insert_ne.
Qed.

(** X17: a turn with a non-empty string under 'input', on a thread whose
    stored messages are dicts with 'role' and 'content', returns; the
    thread's stored messages and the state's 'messages' are then both the
    earlier messages followed by the user message and the reply, the
    reply is under 'response', and no other thread has changed. *)
Theorem conversation_turn_appends_exchange (st : State) (sto : Store) (k : key)
    (input : string) :
  hash_key (get st "thread_id" (VStr "default")) = Ok k →
  st !! "input" = Some (VStr input) →
  input ≠ "" →
  Forall (fun msg => has_role_and_content msg = true) (history k sto) →
  ∃ st' sto' response,
    conversation_turn st sto = Ok (st', sto')
    ∧ response = reply input (Z.of_nat (length (history k sto)) + 1)
    ∧ st' !! "response" = Some (VStr response)
    ∧ st' !! "messages"
      = Some (VList (history k sto ++ exchange input response))
    ∧ history k sto' = (history k sto ++ exchange input response)%list
    ∧ ∀ t, t ≠ k → history t sto' = history t sto.
Proof.
  intros Hk Hin Hne Hall. eexists _, _, _.
  split; [by apply (conversation_turn_Ok st sto k input)|].
  split; [reflexivity|]. split_and!.
  - rewrite lookup_insert_ne by done. by rewrite lookup_insert_eq.
  - rewrite lookup_insert_eq. unfold exchange. by rewrite <- app_assoc.
  - rewrite !history_add_message_eq, history_store_getitem.
    unfold exchange. by rewrite <- app_assoc.
  - intros t Ht. rewrite !history_add_message_ne by done.
    apply history_store_getitem.
Qed.

Lemma conversation_turn_appends_exchange_witness :
  ∃ st' sto' response,
    conversation_turn (turn_state "integration_test" "Hello!") init
    = Ok (st', sto')
    ∧ response = reply "Hello!" (Z.of_nat (length (history (KStr "integration_test") init)) + 1)
    ∧ st' !! "response" = Some (VStr response)
    ∧ st' !! "messages"
      = Some (VList (history (KStr "integration_test") init
                     ++ exchange "Hello!" response))
    ∧ history (KStr "integration_test") sto'
      = (history (KStr "integration_test") init ++ exchange "Hello!" response)%list
    ∧ ∀ t, t ≠ KStr "integration_test" → history t sto' = history t init.
Proof.
  assert ("Hello!" ≠ "") as Hne by discriminate.
  exact (conversation_turn_appends_exchange
           (turn_state "integration_test" "Hello!") init
           (KStr "integration_test") "Hello!" eq_refl eq_refl Hne
           (List.Forall_nil _)).
Defined.

(** X18: a turn without input on a thread without stored messages does
    not return: with 'input' absent or falsy the history stays empty and
    [generate_response] raises [IndexError]; nothing is stored. *)
Theorem conversation_turn_without_input (st : State) (sto : Store) (k : key) :
  hash_key (get st "thread_id" (VStr "default")) = Ok k →
  truthy (get st "input" (VStr "")) = false →
  history k sto = [] →
  conversation_turn st sto = Raise IndexError.
Proof.
  intros Hk Hin Hh. unfold conversation_turn.
  rewrite (load_history_Ok st sto k Hk), bind_of_Ok, Hh. cbn [fst snd].
  rewrite add_user_message_falsy by (by rewrite get_insert_ne).
  rewrite bind_of_Ok. cbn [fst snd].
  rewrite generate_response_empty; [done|].
  apply get_lookup. by rewrite lookup_insert_eq.
Qed.

Lemma conversation_turn_without_input_witness :
  conversation_turn (turn_state "test" "") init = Raise IndexError.
Proof.
  exact (conversation_turn_without_input (turn_state "test" "") init (KStr "test")
           eq_refl eq_refl eq_refl).
Defined.



(** ** HelloWorld run again *)

(** X20: the two HelloWorld nodes can be invoked again without harm:
    each gives on its own result that same result, and the two can run in
    either order. *)
Theorem hello_world_nodes_idempotent (st : State) :
  greet (greet st) = greet st
  ∧ farewell (farewell st) = farewell st
  ∧ farewell (greet st) = greet (farewell st)
  ∧ farewell (greet (farewell (greet st))) = farewell (greet st).
Proof.
  assert (∀ s, greet (greet s) = greet s) as Hg.
  { intros s. unfold greet. rewrite get_insert_ne by done.
    by rewrite insert_insert_eq. }
  assert (∀ s, farewell (farewell s) = farewell s) as Hf.
  { intros s. unfold farewell. by rewrite insert_insert_eq. }
  assert (∀ s, farewell (greet s) = greet (farewell s)) as Hc.
  { intros s. unfold greet, farewell. rewrite get_insert_ne by done.
    by rewrite insert_insert_ne. }
  split_and!; [done|done|done|].
  by rewrite <- (Hc (greet st)), Hg, Hf.
Qed.

(** ** A turn without input, and serializability over a turn *)

(** X21: a turn without input on a thread that has stored messages
    answers the last stored message, and stores a user message with the
    falsy 'input' (the empty string when absent) followed by that reply. *)
Theorem conversation_turn_answers_stored (st : State) (sto : Store) (k : key)
    (last_msg : value) (text : string) :
  hash_key (get st "thread_id" (VStr "default")) = Ok k →
  truthy (get st "input" (VStr "")) = false →
  Forall (fun msg => has_role_and_content msg = true)
         (drop (length (history k sto) - 5) (history k sto)) →
  last (history k sto) = Some last_msg →
  subscript last_msg "content" = Ok (VStr text) →
  ∃ st' sto' response,
    conversation_turn st sto = Ok (st', sto')
    ∧ response = reply text (Z.of_nat (length (history k sto)))
    ∧ st' !! "response" = Some (VStr response)
    ∧ history k sto'
      = (history k sto
         ++ [VDict [("role", VStr "user");
                    ("content", get st "input" (VStr ""))];
             VDict [("role", VStr "assistant");
                    ("content", VStr response)]])%list.
Proof.
  intros Hk Hin Hall Hlast Hc.
  set (h := history k sto) in *.
  set (r := reply text (Z.of_nat (length h))).
  set (st1 := <["messages" := VList h]> st).
  set (st2 := <["response" := VStr r]> st1).
  exists (<["messages" := VList (h ++ [message (VStr "assistant") (VStr r)])]> st2),
         (add_message k (VStr "assistant") (VStr r)
            (add_message k (VStr "user") (get st "input" (VStr ""))
               (store_getitem k sto).2)), r.
  split_and!; [|done| |].
  - unfold conversation_turn.
    rewrite (load_history_Ok st sto k Hk), bind_of_Ok. cbn [fst snd].
    fold h st1.
    rewrite add_user_message_falsy by (by unfold st1; rewrite get_insert_ne).
    rewrite bind_of_Ok. cbn [fst snd].
    rewrite (generate_response_Ok st1 _ h last_msg text);
      [|by unfold st1; rewrite lookup_insert_eq|done|done|done].
    rewrite bind_of_Ok. cbn [fst snd]. fold r st2.
    assert (get st2 "response" (VStr "") = VStr r) as Hr2.
    { unfold st2. apply get_lookup. by rewrite lookup_insert_eq. }
    rewrite (save_response_Ok st2 _ h k).
    + rewrite Hr2. unfold st2, st1. by rewrite !get_insert_ne.
    + rewrite Hr2. apply truthy_VStr, reply_nonempty.
    + unfold st2, st1. rewrite lookup_insert_ne by done.
      by rewrite lookup_insert_eq.
    + unfold st2, st1. by rewrite !get_insert_ne.
  - rewrite lookup_insert_ne by done. unfold st2. by rewrite lookup_insert_eq.
  - rewrite !history_add_message_eq, history_store_getitem.
    by rewrite <- app_assoc.
Qed.

Lemma conversation_turn_answers_stored_witness :
  ∃ st' sto' response,
    conversation_turn (turn_state "t" "")
      (add_message (KStr "t") (VStr "assistant") (VStr "Goodbye!") init)
    = Ok (st', sto')
    ∧ response
      = reply "Goodbye!"
          (Z.of_nat (length (history (KStr "t")
                               (add_message (KStr "t") (VStr "assistant")
                                  (VStr "Goodbye!") init))))
    ∧ st' !! "response" = Some (VStr response)
    ∧ history (KStr "t") sto'
      = (history (KStr "t")
           (add_message (KStr "t") (VStr "assistant") (VStr "Goodbye!") init)
         ++ [message (VStr "user") (get (turn_state "t" "") "input" (VStr ""));
             message (VStr "assistant") (VStr response)])%list.
Proof.
  refine (conversation_turn_answers_stored (turn_state "t" "")
            (add_message (KStr "t") (VStr "assistant") (VStr "Goodbye!") init)
            (KStr "t") (message (VStr "assistant") (VStr "Goodbye!")) "Goodbye!"
            _ _ _ _ _).
  - reflexivity.
  - reflexivity.
  - by repeat constructor.
  - reflexivity.
  - reflexivity.
Defined.

Lemma node_keeps_serializable (f : NodeFn) (st st' : State) (sto sto' : Store) :
  node_effect f →
  state_serializable st → store_serializable sto →
  f st sto = Ok (st', sto') →
  state_serializable st' ∧ store_serializable sto'.
Proof.
  intros Hf Hst Hsto Hrun.
  destruct (Hf _ _ _ _ Hrun) as [Hstate Hstore]. split; [|by apply Hstore].
  destruct Hstate as [->|(k & v & -> & Hv)]; [done|].
  apply map_Forall_insert_2; [by apply Hv | done].
Qed.

(** X22: a turn that returns keeps the state and the messages of the
    store serializable, when they were before it. *)
Theorem conversation_turn_keeps_serializable (st st' : State) (sto sto' : Store) :
  state_serializable st →
  store_serializable sto →
  conversation_turn st sto = Ok (st', sto') →
  state_serializable st' ∧ store_serializable sto'.
Proof.
  intros Hst Hsto Hrun. unfold conversation_turn in Hrun.
  apply bind_Ok in Hrun as ([st1 sto1] & H1 & Hrun).
  apply bind_Ok in Hrun as ([st2 sto2] & H2 & Hrun).
  apply bind_Ok in Hrun as ([st3 sto3] & H3 & H4). cbn [fst snd] in *.
  destruct (node_keeps_serializable _ _ _ _ _ load_history_effect Hst Hsto H1)
    as [Hst1 Hsto1].
  destruct (node_keeps_serializable _ _ _ _ _ add_user_message_effect Hst1 Hsto1 H2)
    as [Hst2 Hsto2].
  destruct (node_keeps_serializable _ _ _ _ _ generate_response_effect Hst2 Hsto2 H3)
    as [Hst3 Hsto3].
  exact (node_keeps_serializable _ _ _ _ _ save_response_effect Hst3 Hsto3 H4).
Qed.

Lemma conversation_turn_keeps_serializable_witness :
  ∃ st' sto',
    conversation_turn (turn_state "t" "Hello!") init = Ok (st', sto')
    ∧ state_serializable st' ∧ store_serializable sto'.
Proof.
  eexists _, _. split; [reflexivity|].
  apply (conversation_turn_keeps_serializable (turn_state "t" "Hello!") _ init _).
  - unfold turn_state. repeat (apply map_Forall_insert_2; [reflexivity|]).
    apply map_Forall_empty.
  - apply map_Forall_empty.
  - reflexivity.
Defined.
